(** * ng-config: the configuration service

  A shallow embedding of [modules/ng-config/src/config.service.ts]: the
  option binder [mapOptionValues], and of the class [ConfigService] its
  constructor, the path accessor [getValue], the key normalisation
  [getNormalizedKey], the binder [map] and the load orchestrator
  [loadInternal] with the callbacks it subscribes.

  Conventions of the embedding.
  - Strings are sequences of ASCII characters.
  - A JavaScript number is an integer or NaN ([number]); fractions and
    infinities are outside the model, and [Number] applied to a string
    reads decimal integer literals only.  The model is exact on integers
    of at most [2^53] in size and on the strings [plain_text] accepts;
    what is stated about the value of a conversion is stated for [plain]
    values.
  - An object is the list of its own enumerable properties in insertion
    order, every key occurring once; names of array indices, which
    JavaScript enumerates first, are not told apart.  A member inherited
    from a prototype ([constructor], [toString], ...) is a function, for
    which the model has no value.  Where the source reads one, the model
    says so: [read] for [fetchRequests[name]] in [loadInternal], and
    [inherited_by] for [acc[current]] in [getValue], whose results are
    stated for segments that name no such member.  Assigning to
    [fetchRequests["__proto__"]], which replaces the prototype, is taken
    as recording under that name.
  - Section and option objects are trees: no object is shared between
    two properties, nor between an option object and a section.  Only
    the top-level option instance handed to [map] has an identity (a
    location of the [heap]).
  - A provider fetch ([configProvider.load()] piped through [share]) is a
    one-shot future: it is pending until the environment settles it, and
    every subscriber observes that one outcome.
  - An exception ends the call: [map] is [None] when it throws, and
    [thrown] is the service it leaves behind.
  - [log] writes to the console when [options.trace] is set and changes
    nothing else; it is left out. *)

From Stdlib Require Import ZArith String Ascii List Lia Permutation.
From stdpp Require Import base option list gmap strings pretty.

Open Scope string_scope.

Set Warnings "-register-all".

(** ** JavaScript runtime *)

Module Js.

Inductive number : Type :=
| Int (z : Z)
| NaN.

Inductive value : Type :=
| VUndefined
| VNull
| VBool (b : bool)
| VNum (n : number)
| VStr (s : string)
| VObj (fields : list (string * value)).

Definition object : Type := list (string * value).

Inductive type_tag : Type :=
| TUndefined | TObject | TBoolean | TNumber | TString.

(** [typeof v] *)
Definition typeof (v : value) : type_tag :=
  match v with
  | VUndefined => TUndefined
  | VNull => TObject
  | VBool _ => TBoolean
  | VNum _ => TNumber
  | VStr _ => TString
  | VObj _ => TObject
  end.

Definition number_eqb (a b : number) : bool :=
  match a, b with
  | Int x, Int y => (x =? y)%Z
  | _, _ => false
  end.

(** [a === b].  Two objects are strictly equal only when they are the
    same object, which a pair of an option value and a section value
    never is. *)
Definition strict_equal (a b : value) : bool :=
  match a, b with
  | VUndefined, VUndefined => true
  | VNull, VNull => true
  | VBool x, VBool y => Bool.eqb x y
  | VNum x, VNum y => number_eqb x y
  | VStr x, VStr y => String.eqb x y
  | _, _ => false
  end.

(** [v == null] *)
Definition is_nullish (v : value) : bool :=
  match v with
  | VUndefined | VNull => true
  | _ => false
  end.

(** ToBoolean, as used by [&&], [||] and [!]. *)
Definition truthy (v : value) : bool :=
  match v with
  | VUndefined | VNull => false
  | VBool b => b
  | VNum (Int z) => negb (z =? 0)%Z
  | VNum NaN => false
  | VStr EmptyString => false
  | VStr _ => true
  | VObj _ => true
  end.

(** *** Strings *)

Definition lower_char (c : ascii) : ascii :=
  let n := nat_of_ascii c in
  if ((65 <=? n) && (n <=? 90))%nat then ascii_of_nat (n + 32) else c.

(** [s.toLowerCase()] *)
Fixpoint toLowerCase (s : string) : string :=
  match s with
  | EmptyString => EmptyString
  | String c rest => String (lower_char c) (toLowerCase rest)
  end.

(** [s.endsWith(suffix)] *)
Definition endsWith (s suffix : string) : bool :=
  String.eqb
    (String.substring (String.length s - String.length suffix)
                      (String.length suffix) s)
    suffix
  && (String.length suffix <=? String.length s)%nat.

(** [s.substr(start, len)] and [s.substr(start)] for [start >= 0]. *)
Definition substr (s : string) (start len : nat) : string :=
  String.substring start len s.

Definition substr_from (s : string) (start : nat) : string :=
  String.substring start (String.length s - start) s.

(** [s.split(/\.|:/)]: the pieces between separators, empty ones kept. *)
Definition is_separator (c : ascii) : bool :=
  Ascii.eqb c "."%char || Ascii.eqb c ":"%char.

Fixpoint split (s : string) : list string :=
  match s with
  | EmptyString => [EmptyString]
  | String c rest =>
      if is_separator c then EmptyString :: split rest
      else match split rest with
           | piece :: pieces => String c piece :: pieces
           | [] => [String c EmptyString]
           end
  end.

(** *** Numbers *)

(** [n.toString()] *)
Definition number_toString (n : number) : string :=
  match n with
  | Int z => pretty z
  | NaN => "NaN"
  end.

(** [b.toString()] *)
Definition boolean_toString (b : bool) : string :=
  if b then "true" else "false".

Definition is_whitespace (c : ascii) : bool :=
  let n := nat_of_ascii c in
  ((9 <=? n) && (n <=? 13) || (n =? 32))%nat.

Fixpoint trim_start (s : string) : string :=
  match s with
  | EmptyString => EmptyString
  | String c rest => if is_whitespace c then trim_start rest else s
  end.

Definition trim (s : string) : string :=
  String.rev (trim_start (String.rev (trim_start s))).

Definition digit_value (c : ascii) : option Z :=
  let n := nat_of_ascii c in
  if ((48 <=? n) && (n <=? 57))%nat then Some (Z.of_nat (n - 48)) else None.

Fixpoint digits_value (acc : Z) (s : string) : option Z :=
  match s with
  | EmptyString => Some acc
  | String c rest =>
      match digit_value c with
      | Some d => digits_value (10 * acc + d)%Z rest
      | None => None
      end
  end.

Definition unsigned_literal (s : string) : option Z :=
  match s with
  | EmptyString => None
  | _ => digits_value 0 s
  end.

(** [Number(s)] for a string: white space is trimmed, the empty string
    is [0], an optionally signed run of decimal digits is its value and
    everything else is [NaN]. *)
Definition string_to_number (s : string) : number :=
  match trim s with
  | EmptyString => Int 0
  | String "+"%char rest =>
      match unsigned_literal rest with Some z => Int z | None => NaN end
  | String "-"%char rest =>
      match unsigned_literal rest with Some z => Int (- z)%Z | None => NaN end
  | t =>
      match unsigned_literal t with Some z => Int z | None => NaN end
  end.

(** [Number(v)], where it returns: see [Number_throws]. *)
Definition Number (v : value) : number :=
  match v with
  | VUndefined => NaN
  | VNull => Int 0
  | VBool b => Int (if b then 1 else 0)
  | VNum n => n
  | VStr s => string_to_number s
  | VObj _ => NaN
  end.

(** [n || 0] on a number *)
Definition or_zero (n : number) : number :=
  if truthy (VNum n) then n else Int 0.

(** *** JSON.stringify *)

Definition hex_digit (n : nat) : ascii :=
  ascii_of_nat (if (n <? 10)%nat then 48 + n else 87 + n).

Definition quote_char (c : ascii) : string :=
  let n := nat_of_ascii c in
  if (n =? 34)%nat then String "\"%char (String c EmptyString)
  else if (n =? 92)%nat then String "\"%char (String c EmptyString)
  else if (n =? 8)%nat then "\b"
  else if (n =? 9)%nat then "\t"
  else if (n =? 10)%nat then "\n"
  else if (n =? 12)%nat then "\f"
  else if (n =? 13)%nat then "\r"
  else if (n <? 32)%nat then
    "\u00" ++ String (hex_digit (n / 16)) (String (hex_digit (n mod 16)) EmptyString)
  else String c EmptyString.

Fixpoint quote_chars (s : string) : string :=
  match s with
  | EmptyString => EmptyString
  | String c rest => quote_char c ++ quote_chars rest
  end.

Definition double_quote : string := String (ascii_of_nat 34) EmptyString.

Definition quote (s : string) : string :=
  double_quote ++ quote_chars s ++ double_quote.

Fixpoint join (sep : string) (pieces : list string) : string :=
  match pieces with
  | [] => EmptyString
  | [p] => p
  | p :: rest => p ++ sep ++ join sep rest
  end.

(** The text of [v], or [None] where [JSON.stringify] yields
    [undefined]; inside an object such a property is left out. *)
Fixpoint stringify (v : value) : option string :=
  match v with
  | VUndefined => None
  | VNull => Some "null"
  | VBool b => Some (boolean_toString b)
  | VNum (Int z) => Some (pretty z)
  | VNum NaN => Some "null"
  | VStr s => Some (quote s)
  | VObj fields =>
      Some ("{" ++
            join ","
              (omap (fun kv : string * value =>
                       match stringify (snd kv) with
                       | Some text => Some (quote (fst kv) ++ ":" ++ text)
                       | None => None
                       end) fields)
            ++ "}")
  end.

Definition JSON_stringify (v : value) : value :=
  match stringify v with
  | Some text => VStr text
  | None => VUndefined
  end.

(** *** Property access *)

(** [obj[key]] on own properties, [None] when [key] is not one. *)
Fixpoint own (fields : object) (key : string) : option value :=
  match fields with
  | [] => None
  | (k, v) :: rest => if String.eqb k key then Some v else own rest key
  end.

(** [Object.prototype.hasOwnProperty.call(obj, key)] *)
Definition hasOwnProperty (fields : object) (key : string) : bool :=
  match own fields key with Some _ => true | None => false end.

(** [obj[key] = v] *)
Fixpoint assign (fields : object) (key : string) (v : value) : object :=
  match fields with
  | [] => [(key, v)]
  | (k, w) :: rest =>
      if String.eqb k key then (k, v) :: rest
      else (k, w) :: assign rest key v
  end.

(** [Object.keys(obj)] *)
Definition keys (fields : object) : list string := List.map fst fields.

(** [{ ...a, ...b }] *)
Definition spread (a b : object) : object :=
  fold_left (fun acc kv => assign acc (fst kv) (snd kv)) b a.

(** The character of [s] at a canonical array-index key. *)
Definition char_at_key (s : string) (key : string) : option value :=
  match list_find (fun i : nat => pretty (Z.of_nat i) = key)
                  (seq 0 (String.length s)) with
  | Some (_, i) =>
      match String.get i s with
      | Some c => Some (VStr (String c EmptyString))
      | None => None
      end
  | None => None
  end.

(** The names under which an object literal finds a member of
    [Object.prototype] when it has no property of its own of that name.
    Each of these members is a function, but for [__proto__], which is
    the prototype itself; all of them are truthy. *)
Definition object_prototype_names : list string :=
  ["constructor"; "hasOwnProperty"; "isPrototypeOf"; "propertyIsEnumerable";
   "toLocaleString"; "toString"; "valueOf"; "__proto__";
   "__defineGetter__"; "__defineSetter__"; "__lookupGetter__"; "__lookupSetter__"].

Definition inherited (key : string) : bool :=
  existsb (String.eqb key) object_prototype_names.

(** Whether [v[key]] finds a member of a prototype: of [Object.prototype]
    for an object that has no property of its own of that name, of
    [Number.prototype] or [Boolean.prototype], and through them of
    [Object.prototype], for a number or a boolean.  Strings, whose
    prototype has many more members, are left out. *)
Definition inherited_by (v : value) (key : string) : bool :=
  match v with
  | VObj fields =>
      match own fields key with
      | Some _ => false
      | None => inherited key
      end
  | VNum _ =>
      inherited key || existsb (String.eqb key) ["toExponential"; "toFixed"; "toPrecision"]
  | VBool _ => inherited key
  | _ => false
  end.

(** [v[key]] for any value that is not [null] or [undefined], as far as
    the properties of [v] itself decide it: the own properties of an
    object, the length and the characters of a string.  Where [key] names
    a member of a prototype ([inherited_by]), the source reads that
    member, a function the model has no value for. *)
Definition get (v : value) (key : string) : value :=
  match v with
  | VObj fields => default VUndefined (own fields key)
  | VStr s =>
      if String.eqb key "length" then VNum (Int (Z.of_nat (String.length s)))
      else default VUndefined (char_at_key s key)
  | _ => VUndefined
  end.

(** Whether [Number(v)] throws.  It does for an object that owns a
    property [toString]: the conversion to a primitive calls [valueOf] of
    [Object.prototype], which gives the object back, then finds under
    [toString] a value of the section, which is not callable, and ends in
    a [TypeError]. *)
Definition Number_throws (v : value) : bool :=
  match v with
  | VObj fields => hasOwnProperty fields "toString"
  | _ => false
  end.

End Js.

Import Js.

(** ** The option binder *)

(** Modelled from the spec: [ConfigSection], declared in
    [config-section.ts], is "a recursive mapping from string keys to one
    of string, number, boolean, nested ConfigSection, null". *)
Definition ConfigSection : Type := object.

(** [OptionsLike] *)
Definition OptionsLike : Type := object.

Definition OptionsSuffix : string := "Options".

(** What one turn of the [for] loop of [mapOptionValues] leaves in
    [options[key]], for a key the section owns, from the values
    [optionsValue = options[key]] and [configValue = configSection[key]].
    A [continue] without assignment leaves [optionsValue].  The nested
    call visits the properties of the nested option object. *)
Fixpoint mapOptionValue (optionsValue configValue : value) {struct optionsValue} : value :=
  if strict_equal optionsValue configValue then optionsValue
  else if is_nullish configValue then VNull
  else if is_nullish optionsValue then configValue
  else
    match optionsValue with
    | VStr _ =>
        match configValue with
        | VStr _ => configValue
        | VNum n => VStr (number_toString n)
        | VBool b => VStr (boolean_toString b)
        | _ => JSON_stringify configValue
        end
    | VBool _ =>
        match configValue with
        | VStr s => VBool (existsb (String.eqb (toLowerCase s)) ["1"; "true"; "on"])
        | VBool _ => configValue
        | VNum n => VBool (number_eqb n (Int 1))
        | _ => VBool false
        end
    | VNum _ => VNum (or_zero (Number configValue))
    | VObj options =>
        match configValue with
        | VObj configSection =>
            VObj (List.map
                    (fun kv : string * value =>
                       let (key, nested) := kv in
                       (key,
                        if hasOwnProperty configSection key
                        then mapOptionValue nested (get (VObj configSection) key)
                        else nested))
                    options)
        | _ => optionsValue
        end
    | _ => optionsValue
    end.

(** [mapOptionValues(options, configSection)]: the properties of
    [options] once the loop has run to its end.  Every key of
    [Object.keys(options)] is visited once and only [options[key]] is
    written in its turn, so the loop is a map over the properties. *)
Definition mapOptionValues (options : OptionsLike) (configSection : ConfigSection) : OptionsLike :=
  List.map
    (fun kv : string * value =>
       let (key, optionsValue) := kv in
       (key,
        if hasOwnProperty configSection key
        then mapOptionValue optionsValue (get (VObj configSection) key)
        else optionsValue))
    options.

(** Whether the turn of the loop for [optionsValue] and [configValue]
    throws: [Number(configValue)] does, or a turn of the nested call. *)
Fixpoint mapOptionValue_throws (optionsValue configValue : value) {struct optionsValue} : bool :=
  if strict_equal optionsValue configValue then false
  else if is_nullish configValue then false
  else if is_nullish optionsValue then false
  else
    match optionsValue with
    | VNum _ => Number_throws configValue
    | VObj options =>
        match configValue with
        | VObj configSection =>
            existsb
              (fun kv : string * value =>
                 let (key, nested) := kv in
                 hasOwnProperty configSection key
                 && mapOptionValue_throws nested (get (VObj configSection) key))
              options
        | _ => false
        end
    | _ => false
    end.

(** Whether [mapOptionValues(options, configSection)] throws. *)
Definition mapOptionValues_throws (options : OptionsLike) (configSection : ConfigSection) : bool :=
  existsb
    (fun kv : string * value =>
       let (key, optionsValue) := kv in
       hasOwnProperty configSection key
       && mapOptionValue_throws optionsValue (get (VObj configSection) key))
    options.

(** What a call that throws leaves behind, the assignments being done
    in place: the fields visited before the turn that throws are bound,
    the field of that turn is as the nested call left it, and the fields
    after it have not been visited. *)
Fixpoint mapOptionValue_interrupted (optionsValue configValue : value) {struct optionsValue} : value :=
  match optionsValue, configValue with
  | VObj options, VObj configSection =>
      VObj ((fix visit (todo : list (string * value)) : list (string * value) :=
               match todo with
               | [] => []
               | (key, nested) :: rest =>
                   if hasOwnProperty configSection key
                   then
                     if mapOptionValue_throws nested (get (VObj configSection) key)
                     then (key, mapOptionValue_interrupted nested (get (VObj configSection) key))
                            :: rest
                     else (key, mapOptionValue nested (get (VObj configSection) key))
                            :: visit rest
                   else (key, nested) :: visit rest
               end) options)
  | _, _ => optionsValue
  end.

Definition mapOptionValues_interrupted (options : OptionsLike) (configSection : ConfigSection) : OptionsLike :=
  match mapOptionValue_interrupted (VObj options) (VObj configSection) with
  | VObj fields => fields
  | _ => options
  end.

(** The same loop written as in the source, key by key with the
    assignment [options[key] = ...] done in place. *)
Definition mapOptionValues_turn (configSection : ConfigSection) (options : OptionsLike) (key : string) : OptionsLike :=
  if hasOwnProperty configSection key
  then assign options key
         (mapOptionValue (get (VObj options) key) (get (VObj configSection) key))
  else options.

Definition mapOptionValues_loop (options : OptionsLike) (configSection : ConfigSection) : OptionsLike :=
  fold_left (mapOptionValues_turn configSection) (keys options) options.

(** The precedence table of the binder, rule by rule, the first matching
    rule deciding.  [None] is rule 8: the field is left untouched. *)
Definition coercion_rules (recurse : OptionsLike -> ConfigSection -> OptionsLike)
    (target found : value) : list (bool * option value) :=
  [ (* 1 *) (strict_equal target found, None);
    (* 2 *) (is_nullish found, Some VNull);
    (* 3 *) (is_nullish target, Some found);
    (* 4 *) (match typeof target with TString => true | _ => false end,
             Some (match found with
                   | VStr s => VStr s
                   | VNum n => VStr (number_toString n)
                   | VBool b => VStr (boolean_toString b)
                   | other => JSON_stringify other
                   end));
    (* 5 *) (match typeof target with TBoolean => true | _ => false end,
             Some (match found with
                   | VStr s =>
                       VBool (bool_decide (toLowerCase s = "1" \/ toLowerCase s = "true"
                                           \/ toLowerCase s = "on"))
                   | VBool b => VBool b
                   | VNum n => VBool (number_eqb n (Int 1))
                   | _ => VBool false
                   end));
    (* 6 *) (match typeof target with TNumber => true | _ => false end,
             Some (match Number found with
                   | NaN => VNum (Int 0)
                   | Int z => VNum (Int z)
                   end));
    (* 7 *) (match target, found with VObj _, VObj _ => true | _, _ => false end,
             match target, found with
             | VObj nested, VObj section => Some (VObj (recurse nested section))
             | _, _ => None
             end) ].

Fixpoint first_rule (rules : list (bool * option value)) : option value :=
  match rules with
  | [] => None
  | (applies, outcome) :: rest => if applies then outcome else first_rule rest
  end.

Definition coerce_by_table (target found : value) : value :=
  default target (first_rule (coercion_rules mapOptionValues target found)).

(** ** The service *)

Module ConfigService.

(** Modelled from the spec: [ConfigProvider], declared in
    [config-provider.ts], is "identified by a stable name" and "exposes
    one operation returning a ConfigSection asynchronously, which may
    fail".  What a call of [load()] delivers, and when, is decided by the
    environment: see [settle]. *)
Record ConfigProvider : Type := { name : string }.

Inductive Status : Type := StatusLoading | StatusLoaded.

Record ConfigLoadingContext : Type := { status : option Status }.

(** A fetch: the observable one call of [configProvider.load()] gave,
    with the position of that provider in [providers]. *)
Inductive outcome : Type :=
| Pending
| Fulfilled (config : ConfigSection)
| Rejected.

Record fetch : Type := { source : nat; result : outcome }.

(** What [this.fetchRequests[loaderName]] reads: the fetch recorded
    under the name or, [fetchRequests] being an object literal, the member
    of [Object.prototype] of that name, which is truthy and is not an
    observable. *)
Inductive member : Type :=
| Stream (id : nat)
| Inherited.

(** What [load] returns: [of(config)], the piped [forkJoin] over the
    listed fetches or, when a member of the array handed to [forkJoin] is
    not an observable, a piped [forkJoin] that fails every subscription
    at once with a [TypeError]. *)
Inductive observable : Type :=
| Of (config : ConfigSection)
| ForkJoin (requests : list nat)
| Failing.

Definition loc : Type := nat.

(** The fields of the service, then its surroundings: the values sent to
    [loadSubject], the fetches issued so far, the [forkJoin] subscribers
    still waiting (flagged when it is the service's own subscription) and
    the option instances of the application. *)
Record state : Type := {
  sortedConfigProviders : list ConfigProvider;
  fetchRequests : gmap string nat;
  loading : bool;
  completed : bool;
  cachedConfig : ConfigSection;
  optionsRecord : gmap string loc;
  loadEvents : list ConfigLoadingContext;
  fetches : list fetch;
  subscribers : list (bool * list nat);
  heap : gmap loc OptionsLike
}.

Definition set_flags (l c : bool) (s : state) : state :=
  {| sortedConfigProviders := sortedConfigProviders s;
     fetchRequests := fetchRequests s;
     loading := l;
     completed := c;
     cachedConfig := cachedConfig s;
     optionsRecord := optionsRecord s;
     loadEvents := loadEvents s;
     fetches := fetches s;
     subscribers := subscribers s;
     heap := heap s |}.

(** [this.loadSubject.next(ctx)] *)
Definition loadSubject_next (ctx : ConfigLoadingContext) (s : state) : state :=
  {| sortedConfigProviders := sortedConfigProviders s;
     fetchRequests := fetchRequests s;
     loading := loading s;
     completed := completed s;
     cachedConfig := cachedConfig s;
     optionsRecord := optionsRecord s;
     loadEvents := loadEvents s ++ [ctx];
     fetches := fetches s;
     subscribers := subscribers s;
     heap := heap s |}.

Definition set_requests (requests : gmap string nat) (fs : list fetch) (s : state) : state :=
  {| sortedConfigProviders := sortedConfigProviders s;
     fetchRequests := requests;
     loading := loading s;
     completed := completed s;
     cachedConfig := cachedConfig s;
     optionsRecord := optionsRecord s;
     loadEvents := loadEvents s;
     fetches := fs;
     subscribers := subscribers s;
     heap := heap s |}.

Definition set_subscribers (subs : list (bool * list nat)) (s : state) : state :=
  {| sortedConfigProviders := sortedConfigProviders s;
     fetchRequests := fetchRequests s;
     loading := loading s;
     completed := completed s;
     cachedConfig := cachedConfig s;
     optionsRecord := optionsRecord s;
     loadEvents := loadEvents s;
     fetches := fetches s;
     subscribers := subs;
     heap := heap s |}.

Definition set_config (config : ConfigSection) (record : gmap string loc) (s : state) : state :=
  {| sortedConfigProviders := sortedConfigProviders s;
     fetchRequests := fetchRequests s;
     loading := loading s;
     completed := completed s;
     cachedConfig := config;
     optionsRecord := record;
     loadEvents := loadEvents s;
     fetches := fetches s;
     subscribers := subscribers s;
     heap := heap s |}.

Definition set_options (record : gmap string loc) (h : gmap loc OptionsLike) (s : state) : state :=
  {| sortedConfigProviders := sortedConfigProviders s;
     fetchRequests := fetchRequests s;
     loading := loading s;
     completed := completed s;
     cachedConfig := cachedConfig s;
     optionsRecord := record;
     loadEvents := loadEvents s;
     fetches := fetches s;
     subscribers := subscribers s;
     heap := h |}.

(** The constructor: [configProviders.reverse()], every field at its
    initialiser.  [h] holds the option instances that exist. *)
Definition constructor (configProviders : list ConfigProvider) (h : gmap loc OptionsLike) : state :=
  {| sortedConfigProviders := reverse configProviders;
     fetchRequests := ∅;
     loading := false;
     completed := false;
     cachedConfig := [];
     optionsRecord := ∅;
     loadEvents := [];
     fetches := [];
     subscribers := [];
     heap := h |}.

(** [get providers()] *)
Definition providers (s : state) : list ConfigProvider := sortedConfigProviders s.

(** [getValue(key)] *)
Definition getValue (key : string) (s : state) : value :=
  let keyArray := split key in
  let result :=
    fold_left (fun acc current => if truthy acc then get acc current else acc)
              keyArray (VObj (cachedConfig s)) in
  match result with
  | VUndefined => VNull
  | _ => result
  end.

(** [getNormalizedKey(className)]; [None] is the [TypeError] of
    [normalizedKey[0].toLowerCase()] on the empty string. *)
Definition getNormalizedKey (className : string) : option string :=
  let normalizedKey :=
    if (String.length OptionsSuffix <? String.length className)%nat
       && endsWith className OptionsSuffix
    then substr className 0 (String.length className - String.length OptionsSuffix)
    else className in
  match normalizedKey with
  | EmptyString => None
  | String first _ =>
      Some (toLowerCase (String first EmptyString) ++ substr_from normalizedKey 1)
  end.

(** [map(optionsClass)], from [className = optionsClass.name] and the
    instance [optionsObj] that [injector.get(optionsClass, new
    optionsClass())] gave.  [None] when [getNormalizedKey] or
    [mapOptionValues] throws, or [optionsObj] is not an instance of the
    heap. *)
Definition map (className : string) (optionsObj : loc) (s : state) : option (loc * state) :=
  match getNormalizedKey className, heap s !! optionsObj with
  | Some normalizedKey, Some options =>
      let cachedOptions := optionsRecord s !! normalizedKey in
      if bool_decide (cachedOptions = Some optionsObj) then Some (optionsObj, s)
      else
        let record :=
          match cachedOptions with
          | Some _ => delete normalizedKey (optionsRecord s)
          | None => optionsRecord s
          end in
        match getValue normalizedKey s with
        | VObj configSection =>
            if mapOptionValues_throws options configSection then None
            else
              Some (optionsObj,
                    set_options (<[normalizedKey := optionsObj]> record)
                                (<[optionsObj := mapOptionValues options configSection]> (heap s))
                                s)
        | _ => Some (optionsObj, set_options record (heap s) s)
        end
  | _, _ => None
  end.

(** The service after a call of [map] that has thrown.  Nothing has
    happened when the class has no name.  When [mapOptionValues] throws,
    the entry of another instance has left the record of bound options,
    the instance is partly bound and nothing is recorded. *)
Definition thrown (className : string) (optionsObj : loc) (s : state) : state :=
  match getNormalizedKey className, heap s !! optionsObj with
  | Some normalizedKey, Some options =>
      let record :=
        match optionsRecord s !! normalizedKey with
        | Some _ => delete normalizedKey (optionsRecord s)
        | None => optionsRecord s
        end in
      match getValue normalizedKey s with
      | VObj configSection =>
          set_options record
                      (<[optionsObj := mapOptionValues_interrupted options configSection]> (heap s))
                      s
      | _ => s
      end
  | _, _ => s
  end.

(** *** Loading *)

(** [this.fetchRequests[loaderName]], [None] for [undefined]. *)
Definition read (requests : gmap string nat) (loaderName : string) : option member :=
  match requests !! loaderName with
  | Some id => Some (Stream id)
  | None => if inherited loaderName then Some Inherited else None
  end.

(** The callback of [this.providers.map]: the member to join for one
    provider, read from [fetchRequests] or, when [reload] is set or
    nothing is read, a fetch issued and recorded there. *)
Definition request (reload : bool) (index : nat) (configProvider : ConfigProvider) (s : state) : state * member :=
  let loaderName := name configProvider in
  match (if reload then None else read (fetchRequests s) loaderName) with
  | Some found => (s, found)
  | None =>
      let id := length (fetches s) in
      (set_requests (<[loaderName := id]> (fetchRequests s))
                    (fetches s ++ [{| source := index; result := Pending |}]) s,
       Stream id)
  end.

Fixpoint requestAll (reload : bool) (index : nat) (ps : list ConfigProvider) (s : state) : state * list member :=
  match ps with
  | [] => (s, [])
  | configProvider :: rest =>
      let (s1, found) := request reload index configProvider s in
      let (s2, members) := requestAll reload (S index) rest s1 in
      (s2, found :: members)
  end.

(** The fetches behind the members, when each of them is one. *)
Definition streams (members : list member) : option (list nat) :=
  mapM (fun found => match found with Stream id => Some id | Inherited => None end) members.

Definition outcome_at (fs : list fetch) (id : nat) : outcome :=
  match fs !! id with
  | Some f => result f
  | None => Pending
  end.

(** What a [forkJoin] over the fetches [ids] has for a subscriber: the
    array of all values, an error as soon as one fetch failed, nothing
    yet, or, over no source at all, completion without a value. *)
Inductive notification : Type :=
| Next (configs : list ConfigSection)
| Error
| Complete
| Waiting.

Definition is_rejected (o : outcome) : bool :=
  match o with Rejected => true | _ => false end.

Definition fulfilled (o : outcome) : option ConfigSection :=
  match o with Fulfilled config => Some config | _ => None end.

Definition forkJoin (fs : list fetch) (ids : list nat) : notification :=
  match ids with
  | [] => Complete
  | _ =>
      if existsb (fun id => is_rejected (outcome_at fs id)) ids then Error
      else match mapM (fun id => fulfilled (outcome_at fs id)) ids with
           | Some configs => Next configs
           | None => Waiting
           end
  end.

(** The [map] operator of the pipe: [configs.forEach] spreading each
    section over the merge so far. *)
Definition mergeConfigs (configs : list ConfigSection) : ConfigSection :=
  fold_left spread configs [].

(** The [tap] operator of the pipe. *)
Definition tap (config : ConfigSection) (s : state) : state :=
  set_config config ∅ s.

(** The two callbacks of [obs$.subscribe]. *)
Definition on_next (s : state) : state :=
  loadSubject_next {| status := Some StatusLoaded |} (set_flags false true s).

Definition on_error (s : state) : state :=
  set_flags false false s.

(** One subscriber of the pipe receives what [forkJoin] has; [own] marks
    the subscription made by [loadInternal] itself. *)
Definition deliver (own : bool) (ids : list nat) (s : state) : state :=
  match forkJoin (fetches s) ids with
  | Next configs =>
      let s1 := tap (mergeConfigs configs) s in
      if own then on_next s1 else s1
  | Error => if own then on_error s else s
  | Complete => s
  | Waiting => s
  end.

Definition subscribe (own : bool) (ids : list nat) (s : state) : state :=
  match forkJoin (fetches s) ids with
  | Waiting => set_subscribers (subscribers s ++ [(own, ids)]) s
  | _ => deliver own ids s
  end.

(** [loadInternal(reload)] up to its [return]. *)
Definition loadInternal (reload : bool) (s : state) : state * observable :=
  if completed s && negb reload then (s, Of (cachedConfig s))
  else
    let s1 :=
      if negb (loading s)
      then loadSubject_next {| status := Some StatusLoading |} (set_flags true false s)
      else s in
    let (s2, members) := requestAll reload 0 (providers s1) s1 in
    match streams members with
    | Some ids => (subscribe true ids s2, ForkJoin ids)
    | None => (on_error s2, Failing)
    end.

(** [load(reLoad)] *)
Definition load (reLoad : bool) (s : state) : state * observable :=
  loadInternal reLoad s.

(** A pending fetch settles, with a section or with an error: the
    subscribers joined on it are served in the order they subscribed. *)
Definition waits_on (id : nat) (sub : bool * list nat) : bool :=
  existsb (Nat.eqb id) (snd sub).

Definition still_waiting (fs : list fetch) (sub : bool * list nat) : bool :=
  match forkJoin fs (snd sub) with
  | Waiting => true
  | _ => false
  end.

Definition settle (id : nat) (outcome_now : option ConfigSection) (s : state) : state :=
  match fetches s !! id with
  | Some {| source := index; result := Pending |} =>
      let settled :=
        {| source := index;
           result := match outcome_now with
                     | Some config => Fulfilled config
                     | None => Rejected
                     end |} in
      let fs := <[id := settled]> (fetches s) in
      let served := List.filter (waits_on id) (subscribers s) in
      let kept :=
        List.filter (fun sub => negb (waits_on id sub) || still_waiting fs sub)
                    (subscribers s) in
      fold_left (fun st sub => deliver (fst sub) (snd sub) st) served
                (set_subscribers kept (set_requests (fetchRequests s) fs s))
  | _ => s
  end.

(** What happens to a service: calls of its methods and the settling of
    fetches. *)
Inductive event : Type :=
| CallLoad (reLoad : bool)
| SubscribeTo (o : observable)
| Settle (id : nat) (outcome_now : option ConfigSection)
| CallMap (className : string) (optionsObj : loc).

Definition step (s : state) (e : event) : state :=
  match e with
  | CallLoad reLoad => fst (load reLoad s)
  | SubscribeTo (Of _) => s
  | SubscribeTo (ForkJoin ids) => subscribe false ids s
  | SubscribeTo Failing => s
  | Settle id outcome_now => settle id outcome_now s
  | CallMap className optionsObj =>
      match map className optionsObj s with
      | Some (_, s') => s'
      | None => thrown className optionsObj s
      end
  end.

Definition run (es : list event) (s : state) : state := fold_left step es s.

End ConfigService.

Import ConfigService.


(** ** Sample services and auxiliary notions *)

Definition bound_state : state :=
  set_config [("foo", VObj [("a", VStr "x")])] ∅
             (constructor [] {[ 0 := [("a", VNull); ("b", VNum (Int 1))] ]}).

Definition loaded_state : state :=
  run [CallLoad false; Settle 0 (Some [("k", VStr "v")])] (constructor [{| name := "p" |}] ∅).


(** [request] touches [fetchRequests] and the fetches only. *)
Definition same_service (s s' : state) : Prop :=
  sortedConfigProviders s' = sortedConfigProviders s
  /\ loading s' = loading s
  /\ completed s' = completed s
  /\ cachedConfig s' = cachedConfig s
  /\ optionsRecord s' = optionsRecord s
  /\ loadEvents s' = loadEvents s
  /\ subscribers s' = subscribers s
  /\ heap s' = heap s.

(** Two providers, a load under way; then the first fetch has failed. *)
Definition two_pending : state :=
  fst (load false (constructor [{| name := "a" |}; {| name := "b" |}] ∅)).

Definition one_failed : state := settle 0 None two_pending.

(** [map] as it runs when the record of bound options holds nothing
    for the instance: the section is looked up in the snapshot and the
    instance coerced against it. *)
Definition bind_afresh (className : string) (optionsObj : loc) (s : state) : option (loc * state) :=
  match getNormalizedKey className, heap s !! optionsObj with
  | Some normalizedKey, Some options =>
      match getValue normalizedKey s with
      | VObj configSection =>
          if mapOptionValues_throws options configSection then None
          else
            Some (optionsObj,
                  set_options (<[normalizedKey := optionsObj]> (optionsRecord s))
                              (<[optionsObj := mapOptionValues options configSection]> (heap s))
                              s)
      | _ => Some (optionsObj, s)
      end
  | _, _ => None
  end.

(** The snapshot of [s] is the merge of a join that has all its values,
    and no bound option is on record. *)
Definition merged (s : state) : Prop :=
  optionsRecord s = ∅
  /\ exists (ids : list nat) (configs : list ConfigSection),
       forkJoin (fetches s) ids = Next configs
       /\ cachedConfig s = mergeConfigs configs.

Definition loaded_context : ConfigLoadingContext := {| status := Some StatusLoaded |}.

(** The fetches a first load issues: one per provider, in the order of
    [providers], each pending. *)
Definition issued (index count : nat) : list fetch :=
  (fun i => {| source := i; result := Pending |}) <$> seq index count.

(** How many times [load()] of the provider at position [index] of
    [providers] has been called. *)
Definition invocations (index : nat) (s : state) : nat :=
  length (List.filter (fun f => (source f =? index)%nat) (fetches s)).

(** No provider is named like a member of [Object.prototype]. *)
Definition none_inherited (configProviders : list ConfigProvider) : Prop :=
  Forall (fun p => inherited (name p) = false) configProviders.

(** Two calls of [load()] in a row on a new service, no fetch settling
    in between, call [load()] of every provider once. *)
Definition fetched_once (configProviders : list ConfigProvider) (h : gmap loc OptionsLike) : Prop :=
  forall index : nat,
    index < length configProviders ->
    invocations index (run [CallLoad false; CallLoad false] (constructor configProviders h)) = 1.

(** Every fetch issued so far succeeds with the section of its provider,
    [applied] listing the sections in the order of [providers]. *)
Definition deliveries (applied : list ConfigSection) (s : state) : list event :=
  imap (fun id f => Settle id (applied !! source f)) (fetches s).

(** The section a subscriber of [o] receives in state [s], if any. *)
Definition emits (o : observable) (s : state) : option ConfigSection :=
  match o with
  | Of config => Some config
  | ForkJoin ids =>
      match forkJoin (fetches s) ids with
      | Next configs => Some (mergeConfigs configs)
      | _ => None
      end
  | Failing => None
  end.

(** A new service over [configProviders], whose sections are [sections]
    in the same order, is loaded; once the fetches have succeeded, in
    whatever order, the load has completed, and both the snapshot and
    what [load] returned hold the sections spread one over the other from
    the last registered to the first. *)
Definition merges_in_reverse_order (reload : bool) (configProviders : list ConfigProvider)
    (sections : list ConfigSection) (h : gmap loc OptionsLike) : Prop :=
  forall order : list event,
    order ≡ₚ deliveries (reverse sections) (fst (load reload (constructor configProviders h))) ->
    let s' := run order (fst (load reload (constructor configProviders h))) in
    cachedConfig s' = mergeConfigs (reverse sections)
    /\ emits (snd (load reload (constructor configProviders h))) s' = Some (mergeConfigs (reverse sections))
    /\ completed s' = true
    /\ loading s' = false.


(** A service whose snapshot is [config]. *)
Definition with_snapshot (config : ConfigSection) : state :=
  set_config config ∅ (constructor [] ∅).

(** The path accessor as specified: the value found by following
    [segments] through nested sections, [None] when a segment is missing
    or the value reached before the last segment is not a section. *)
Fixpoint resolve (v : value) (segments : list string) : option value :=
  match segments with
  | [] => Some v
  | segment :: rest =>
      match v with
      | VObj fields =>
          match own fields segment with
          | Some found => resolve found rest
          | None => None
          end
      | _ => None
      end
  end.

(** A bound instance, a forced reload under way. *)
Definition rebinding : state :=
  run [CallLoad false;
       Settle 0 (Some [("foo", VObj [("a", VNum (Int 1))])]);
       CallMap "FooOptions" 0;
       CallLoad true]
      (constructor [{| name := "p" |}] {[ 0 := [("a", VStr "0")] ]}).

Definition reloaded : state :=
  step rebinding (Settle 1 (Some [("foo", VObj [("a", VNum (Int 2))])])).

(** Every bound option on record was bound against the snapshot as it
    is: the name it is recorded under leads to a section. *)
Definition record_current (s : state) : Prop :=
  forall (key : string) (optionsObj : loc),
    optionsRecord s !! key = Some optionsObj ->
    exists section : ConfigSection, getValue key s = VObj section.

(** ** Further notions *)

(** A value as [JSON.parse] gives it: no NaN, and in every object each
    key once. *)
Fixpoint json_like (v : value) : bool :=
  match v with
  | VNum NaN => false
  | VObj fields =>
      bool_decide (NoDup (keys fields))
      && forallb (fun kv : string * value => json_like (snd kv)) fields
  | _ => true
  end.

(** A number the model holds as JavaScript does: an integer of at most
    [2^53] in size, or NaN. *)
Definition safe_integer (n : number) : bool :=
  match n with
  | Int z => (Z.abs z <=? 2 ^ 53)%Z
  | NaN => true
  end.

(** A character a numeric literal can begin with: a digit, a sign, the
    point, or the [I] of [Infinity]. *)
Definition begins_literal (c : ascii) : bool :=
  match digit_value c with
  | Some _ => true
  | None => existsb (Ascii.eqb c) ["+"; "-"; "."; "I"]%char
  end.

(** A string [Number] reads as JavaScript does: white space apart it is
    empty or an optionally signed run of decimal digits for an integer
    of at most [2^53] in size, or it begins with a character no numeric
    literal begins with. *)
Definition plain_text (s : string) : bool :=
  match string_to_number s with
  | Int z => (Z.abs z <=? 2 ^ 53)%Z
  | NaN =>
      match trim s with
      | String c _ => negb (begins_literal c)
      | EmptyString => true
      end
  end.

(** The name of an array index, which JavaScript enumerates before the
    other property names whatever the order of insertion. *)
Definition array_index (key : string) : bool :=
  match unsigned_literal key with
  | Some z => String.eqb (pretty z) key
  | None => false
  end.

(** A value on which the model of numbers, of [Number] and of the order
    of properties is exact: its numbers are safe integers, its strings
    are plain, and no property is named like an array index. *)
Fixpoint plain (v : value) : bool :=
  match v with
  | VNum n => safe_integer n
  | VStr s => plain_text s
  | VObj fields =>
      forallb (fun kv : string * value => negb (array_index (fst kv)) && plain (snd kv)) fields
  | _ => true
  end.

(** [key] with every delimiter written as a dot. *)
Fixpoint with_dots (key : string) : string :=
  match key with
  | EmptyString => EmptyString
  | String c rest => String (if is_separator c then "."%char else c) (with_dots rest)
  end.

(** No character of [s] is a delimiter of paths. *)
Fixpoint plain_segment (s : string) : bool :=
  match s with
  | EmptyString => true
  | String c rest => negb (is_separator c) && plain_segment rest
  end.

(** Under the name of every registered provider [fetchRequests] has
    something to read. *)
Definition names_on_record (s : state) : Prop :=
  forall p : ConfigProvider,
    p ∈ providers s -> is_Some (read (fetchRequests s) (name p)).

Definition loading_context : ConfigLoadingContext := {| status := Some StatusLoading |}.

(** What the sections, read in order, leave for [key]: the value of the
    last of them that has the key. *)
Definition latest (key : string) (configs : list ConfigSection) : option value :=
  fold_left (fun found config =>
               match own config key with
               | Some v => Some v
               | None => found
               end)
            configs None.

(** What holds of the flags and the subscribers whenever the service is
    at rest between two events: [loading] and [completed] are not both
    set; a completed load has sent [loaded]; every subscriber waits on a
    join that is still undecided; and while [loading] is set, providers
    being registered, a subscription of the service itself is among
    them. *)
Definition steady (s : state) : Prop :=
  (loading s = true -> completed s = false)
  /\ (completed s = true -> loaded_context ∈ loadEvents s)
  /\ Forall (fun sub => forkJoin (fetches s) (snd sub) = Waiting) (subscribers s)
  /\ (loading s = true -> providers s <> [] ->
      exists ids : list nat, (true, ids) ∈ subscribers s).


(** A service on which [load] has not been called: nothing sent to the
    status stream, no flag set, nothing fetched, the snapshot empty and
    no subscription of the service itself. *)
Definition untouched (s : state) : Prop :=
  loadEvents s = [] /\ loading s = false /\ completed s = false
  /\ fetches s = [] /\ cachedConfig s = []
  /\ Forall (fun sub : bool * list nat => fst sub = false) (subscribers s).

(** The status stream opens with [loading]. *)
Definition started (s : state) : Prop :=
  exists rest : list ConfigLoadingContext, loadEvents s = loading_context :: rest.

Definition is_load (e : event) : bool :=
  match e with
  | CallLoad _ => true
  | _ => false
  end.

(** * Strings *)

Lemma append_cons (c : ascii) (p q : string) : String c p ++ q = String c (p ++ q).
Proof. reflexivity. Qed.

Lemma length_append (p q : string) :
  String.length (p ++ q) = String.length p + String.length q.
Proof. induction p as [|c p IH]; simpl; [reflexivity | now rewrite IH]. Qed.

Lemma substring_all (s : string) : substring 0 (String.length s) s = s.
Proof. induction s as [|c s IH]; simpl; [reflexivity | now rewrite IH]. Qed.

Lemma substring_stem (p q : string) : substring 0 (String.length p) (p ++ q) = p.
Proof.
  induction p as [|c p IH]; simpl.
  - now destruct q.
  - now rewrite IH.
Qed.

Lemma substring_suffix (p q : string) :
  substring (String.length p) (String.length q) (p ++ q) = q.
Proof. induction p as [|c p IH]; simpl; [apply substring_all | exact IH]. Qed.

Lemma substring_split (s : string) (n : nat) :
  n <= String.length s ->
  s = substring 0 n s ++ substring n (String.length s - n) s.
Proof.
  revert n; induction s as [|c s IH]; intros n Hn; simpl in *.
  - now destruct n.
  - destruct n as [|n]; simpl.
    + now rewrite substring_all.
    + rewrite append_cons. f_equal. apply IH. lia.
Qed.

Lemma endsWith_append (p q : string) : endsWith (p ++ q) q = true.
Proof.
  unfold endsWith. rewrite length_append.
  replace (String.length p + String.length q - String.length q)
    with (String.length p) by lia.
  rewrite substring_suffix, String.eqb_refl. simpl.
  apply Nat.leb_le. lia.
Qed.

Lemma endsWith_inv (s q : string) :
  endsWith s q = true ->
  s = substring 0 (String.length s - String.length q) s ++ q.
Proof.
  unfold endsWith. intros H. apply andb_true_iff in H as [Heq Hle].
  apply String.eqb_eq in Heq. apply Nat.leb_le in Hle.
  rewrite (substring_split s (String.length s - String.length q)) at 1 by lia.
  f_equal. rewrite <- Heq at 3. f_equal. lia.
Qed.

Lemma lower_first (first : ascii) (rest : string) :
  toLowerCase (String first EmptyString) ++ substr_from (String first rest) 1
  = String (lower_char first) rest.
Proof.
  unfold substr_from. simpl. rewrite Nat.sub_0_r. now rewrite substring_all.
Qed.

(** C8: a name made of a non-empty stem and the suffix [Options] is
    normalized to the stem with its first character in lower case; any
    other non-empty name, among them [Options] itself, which is no longer
    than the suffix, keeps all its characters and has the first in lower
    case. *)
Theorem getNormalizedKey_strips_suffix_then_lowers :
  (forall (first : ascii) (rest : string),
      getNormalizedKey (String first rest ++ OptionsSuffix)
      = Some (String (lower_char first) rest))
  /\ (forall (first : ascii) (rest : string),
         (forall stem : string,
             stem <> EmptyString -> String first rest <> stem ++ OptionsSuffix) ->
         getNormalizedKey (String first rest) = Some (String (lower_char first) rest))
  /\ getNormalizedKey OptionsSuffix = Some "options".
Proof.
  split; [|split].
  - intros first rest. unfold getNormalizedKey.
    rewrite endsWith_append, length_append.
    replace (String.length OptionsSuffix <? String.length (String first rest) + String.length OptionsSuffix)%nat
      with true by (symmetry; apply Nat.ltb_lt; simpl; lia).
    cbn [andb]. unfold substr.
    replace (String.length (String first rest) + String.length OptionsSuffix - String.length OptionsSuffix)
      with (String.length (String first rest)) by lia.
    rewrite substring_stem. now rewrite lower_first.
  - intros first rest Hstem. unfold getNormalizedKey.
    destruct ((String.length OptionsSuffix <? String.length (String first rest))%nat
              && endsWith (String first rest) OptionsSuffix) eqn:Hcond.
    + exfalso. apply andb_true_iff in Hcond as [Hlen Hends].
      apply Nat.ltb_lt in Hlen. apply endsWith_inv in Hends.
      refine (Hstem _ _ Hends). intros Hempty.
      apply (f_equal String.length) in Hends.
      rewrite length_append, Hempty in Hends. simpl in Hends, Hlen. lia.
    + now rewrite lower_first.
  - reflexivity.
Qed.

Lemma getNormalizedKey_strips_suffix_then_lowers_witness :
  getNormalizedKey "Settings" = Some "settings".
Proof.
  apply (proj1 (proj2 getNormalizedKey_strips_suffix_then_lowers) "S"%char "ettings").
  intros stem _ H. pose proof (f_equal String.length H) as Hlen.
  rewrite length_append in Hlen.
  destruct stem as [|c [|c' stem]]; simpl in Hlen; try lia.
  cbv in H. discriminate H.
Defined.

(** * The option binder *)

Lemma own_mapOptionValues (options : OptionsLike) (section : ConfigSection) (key : string) :
  own (mapOptionValues options section) key =
  match own options key with
  | Some target =>
      Some (if hasOwnProperty section key
            then mapOptionValue target (get (VObj section) key)
            else target)
  | None => None
  end.
Proof.
  induction options as [|[k v] options IH]; simpl; [reflexivity|].
  destruct (String.eqb_spec k key) as [->|Hne]; [reflexivity | exact IH].
Qed.

Lemma keys_mapOptionValues (options : OptionsLike) (section : ConfigSection) :
  keys (mapOptionValues options section) = keys options.
Proof.
  unfold keys, mapOptionValues. rewrite List.map_map.
  apply List.map_ext. now intros [k v].
Qed.

Lemma mapOptionValue_nested (options : OptionsLike) (section : ConfigSection) :
  mapOptionValue (VObj options) (VObj section) = VObj (mapOptionValues options section).
Proof. reflexivity. Qed.

Lemma or_zero_fallback (n : number) :
  VNum (or_zero n) = match n with NaN => VNum (Int 0) | Int z => VNum (Int z) end.
Proof.
  destruct n as [z|]; [|reflexivity]. unfold or_zero. simpl.
  destruct (Z.eqb_spec z 0) as [->|]; reflexivity.
Qed.

Lemma recognised_true (s : string) :
  existsb (String.eqb s) ["1"; "true"; "on"]
  = bool_decide (s = "1" \/ s = "true" \/ s = "on").
Proof.
  simpl. rewrite orb_false_r.
  destruct (String.eqb_spec s "1"), (String.eqb_spec s "true"), (String.eqb_spec s "on");
    simpl; symmetry;
    try (apply bool_decide_eq_true; tauto);
    apply bool_decide_eq_false; tauto.
Qed.

Lemma mapOptionValue_table (target found : value) :
  mapOptionValue target found = coerce_by_table target found.
Proof.
  unfold coerce_by_table, coercion_rules, first_rule.
  destruct target as [| |b|n|s|options]; destruct found as [| |b'|n'|s'|section];
    cbn -[existsb or_zero string_to_number JSON_stringify mapOptionValues];
    repeat match goal with
      | |- context [if ?c then _ else _] => destruct c eqn:?
      end;
    cbn -[existsb or_zero string_to_number JSON_stringify mapOptionValues];
    rewrite ?or_zero_fallback, ?recognised_true; try reflexivity.
Qed.

Open Scope list_scope.

Lemma own_app_fresh (front back : object) (key : string) :
  key ∉ keys front -> own (front ++ back) key = own back key.
Proof.
  induction front as [|[k v] front IH]; simpl; [reflexivity|].
  intros Hfresh. apply not_elem_of_cons in Hfresh as [Hne Hfresh].
  destruct (String.eqb_spec k key) as [->|_]; [done|]. now apply IH.
Qed.

Lemma assign_app_fresh (front back : object) (key : string) (old new : value) :
  key ∉ keys front ->
  assign (front ++ (key, old) :: back) key new = front ++ (key, new) :: back.
Proof.
  induction front as [|[k v] front IH]; simpl.
  - now rewrite String.eqb_refl.
  - intros Hfresh. apply not_elem_of_cons in Hfresh as [Hne Hfresh].
    destruct (String.eqb_spec k key) as [->|_]; [done|].
    f_equal. now apply IH.
Qed.

Lemma mapOptionValues_loop_from (section : ConfigSection) (todo front : OptionsLike) :
  NoDup (keys (front ++ todo)) ->
  fold_left (mapOptionValues_turn section) (keys todo) (front ++ todo)
  = front ++ mapOptionValues todo section.
Proof.
  revert front. induction todo as [|[key old] todo IH]; intros front Hnodup; [reflexivity|].
  assert (Hfresh : key ∉ keys front).
  { unfold keys in *. rewrite List.map_app in Hnodup.
    apply NoDup_app in Hnodup as (_ & Hdisjoint & _).
    intros Hin. apply (Hdisjoint key Hin). simpl. apply elem_of_cons. now left. }
  cbn [keys List.map fst fold_left mapOptionValues].
  unfold mapOptionValues_turn at 2. cbn [get]. rewrite own_app_fresh by exact Hfresh.
  cbn [own]. rewrite String.eqb_refl. cbn [default from_option id].
  destruct (hasOwnProperty section key).
  - rewrite assign_app_fresh by exact Hfresh.
    change (front ++ (key, ?v) :: todo) with (front ++ [(key, v)] ++ todo).
    rewrite app_assoc, IH.
    + now rewrite <- app_assoc.
    + rewrite <- app_assoc. unfold keys in *.
      rewrite List.map_app in *. exact Hnodup.
  - change (front ++ (key, old) :: todo) with (front ++ [(key, old)] ++ todo).
    rewrite app_assoc, IH.
    + now rewrite <- app_assoc.
    + now rewrite <- app_assoc.
Qed.

(** Visiting the keys one by one and assigning in place, as the source
    does, is the map over the properties when every key occurs once. *)
Lemma mapOptionValues_loop_correct (options : OptionsLike) (section : ConfigSection) :
  NoDup (keys options) ->
  mapOptionValues_loop options section = mapOptionValues options section.
Proof.
  intros Hnodup. apply (mapOptionValues_loop_from section options []). exact Hnodup.
Qed.


(** Where [mapOptionValues] does not throw, and on sections on which
    the model of numbers is exact, it leaves for a key of both the
    defaults and the section what the precedence table of the binder
    prescribes, and any other field as it was.  In particular a string
    field bound to [true] becomes ["true"], a boolean field bound to
    ["on"] stays [true] (a string counts as true exactly when its
    lower-case form is ["1"], ["true"] or ["on"]), and a numeric field
    bound to ["abc"], or to any value that [Number] maps to NaN, becomes
    [0]. *)
Theorem bind_coercion_follows_table :
  (forall (options : OptionsLike) (section : ConfigSection) (key : string),
      plain (VObj section) = true ->
      mapOptionValues_throws options section = false ->
      own (mapOptionValues options section) key =
      match own options key, own section key with
      | Some target, Some found => Some (coerce_by_table target found)
      | kept, _ => kept
      end)
  /\ mapOptionValues [("x", VStr "1")] [("x", VBool true)] = [("x", VStr "true")]
  /\ mapOptionValues [("x", VBool true)] [("x", VStr "on")] = [("x", VBool true)]
  /\ mapOptionValues [("x", VNum (Int 0))] [("x", VStr "abc")] = [("x", VNum (Int 0))]
  /\ (forall (b : bool) (s : string),
         mapOptionValues [("x", VBool b)] [("x", VStr s)]
         = [("x", VBool (bool_decide (toLowerCase s = "1" \/ toLowerCase s = "true"
                                      \/ toLowerCase s = "on")))])
  /\ (forall (n : number) (found : value),
         plain found = true -> Number_throws found = false ->
         is_nullish found = false -> Number found = NaN ->
         mapOptionValues [("x", VNum n)] [("x", found)] = [("x", VNum (Int 0))]).
Proof.
  repeat split.
  - intros options section key _ _. rewrite own_mapOptionValues.
    unfold hasOwnProperty. cbn [get].
    destruct (own options key) as [target|]; [|reflexivity].
    destruct (own section key) as [found|]; [|reflexivity].
    cbn [default from_option id]. now rewrite mapOptionValue_table.
  - intros b s.
    change (mapOptionValues [("x", VBool b)] [("x", VStr s)])
      with [("x", mapOptionValue (VBool b) (VStr s))].
    do 2 f_equal. cbn -[existsb]. now rewrite recognised_true.
  - intros n found _ _ Hnullish Hnan.
    change (mapOptionValues [("x", VNum n)] [("x", found)])
      with [("x", mapOptionValue (VNum n) found)].
    do 2 f_equal. rewrite mapOptionValue_table.
    unfold coerce_by_table, coercion_rules, first_rule.
    assert (Hne : strict_equal (VNum n) found = false).
    { destruct found as [| | |[z|] | |]; try reflexivity; try discriminate Hnan.
      simpl. now destruct n. }
    rewrite Hne, Hnullish, Hnan. reflexivity.
Qed.

Lemma bind_coercion_follows_table_witness :
  mapOptionValues [("x", VNum (Int 7))] [("x", VObj [("y", VNull)])]
  = [("x", VNum (Int 0))].
Proof.
  apply (proj2 (proj2 (proj2 (proj2 (proj2 bind_coercion_follows_table))))
               (Int 7) (VObj [("y", VNull)])); reflexivity.
Defined.

(** * The binder on the service *)

Lemma set_options_same (s : state) : set_options (optionsRecord s) (heap s) s = s.
Proof. now destruct s. Qed.

(** What a call that throws leaves behind has the keys of the
    defaults, and the fields the section lacks as they were. *)
Lemma mapOptionValues_interrupted_cons (key : string) (nested : value) (rest : OptionsLike)
    (section : ConfigSection) :
  mapOptionValues_interrupted ((key, nested) :: rest) section
  = if hasOwnProperty section key
    then
      if mapOptionValue_throws nested (get (VObj section) key)
      then (key, mapOptionValue_interrupted nested (get (VObj section) key)) :: rest
      else (key, mapOptionValue nested (get (VObj section) key))
             :: mapOptionValues_interrupted rest section
    else (key, nested) :: mapOptionValues_interrupted rest section.
Proof.
  unfold mapOptionValues_interrupted. cbn [mapOptionValue_interrupted].
  destruct (hasOwnProperty section key); [|reflexivity].
  now destruct (mapOptionValue_throws nested (get (VObj section) key)).
Qed.

Lemma keys_mapOptionValues_interrupted (options : OptionsLike) (section : ConfigSection) :
  keys (mapOptionValues_interrupted options section) = keys options.
Proof.
  induction options as [|[key nested] options IH]; [reflexivity|].
  rewrite mapOptionValues_interrupted_cons.
  destruct (hasOwnProperty section key);
    [destruct (mapOptionValue_throws nested (get (VObj section) key))|];
    unfold keys in *; cbn [List.map fst]; congruence.
Qed.

Lemma own_mapOptionValues_interrupted (options : OptionsLike) (section : ConfigSection)
    (key : string) :
  hasOwnProperty section key = false ->
  own (mapOptionValues_interrupted options section) key = own options key.
Proof.
  intros Habsent. induction options as [|[k nested] options IH]; [reflexivity|].
  rewrite mapOptionValues_interrupted_cons.
  destruct (String.eqb_spec k key) as [->|Hne].
  - rewrite Habsent. cbn [own]. now rewrite String.eqb_refl.
  - destruct (hasOwnProperty section k);
      [destruct (mapOptionValue_throws nested (get (VObj section) k))|];
      cbn [own]; destruct (String.eqb_spec k key); try contradiction; auto.
Qed.

(** C9: [map] hands back the instance it was given.  When the normalized
    name leads to no object in the snapshot the instances are left as they
    were.  Otherwise the call returns unless [mapOptionValues] throws and,
    whether it returns or throws, it leaves the instance with the keys of
    the defaults, in their order, and every field whose key the section
    lacks with its value; no other instance changes. *)
Theorem bind_touches_common_fields_only :
  forall (s : state) (className normalizedKey : string) (optionsObj : loc)
         (options : OptionsLike),
    getNormalizedKey className = Some normalizedKey ->
    heap s !! optionsObj = Some options ->
    (forall (returned : loc) (s' : state),
        map className optionsObj s = Some (returned, s') -> returned = optionsObj)
    /\ match getValue normalizedKey s with
       | VObj section =>
           (mapOptionValues_throws options section = false ->
            is_Some (map className optionsObj s))
           /\ exists bound : OptionsLike,
                heap (step s (CallMap className optionsObj)) !! optionsObj = Some bound
                /\ keys bound = keys options
                /\ (forall key : string,
                       hasOwnProperty section key = false ->
                       own bound key = own options key)
                /\ (forall other : loc,
                       other <> optionsObj ->
                       heap (step s (CallMap className optionsObj)) !! other = heap s !! other)
       | _ =>
           exists s' : state,
             map className optionsObj s = Some (optionsObj, s') /\ heap s' = heap s
       end.
Proof.
  intros s className normalizedKey optionsObj options Hkey Hobj. split.
  - intros returned s'. unfold map. rewrite Hkey, Hobj.
    destruct (bool_decide _); [now intros [= <- _]|].
    destruct (getValue normalizedKey s) as [| | | | |section];
      try (now intros [= <- _]).
    destruct (mapOptionValues_throws options section); [discriminate | now intros [= <- _]].
  - cbn [step]. unfold map, thrown. rewrite Hkey, Hobj.
    destruct (bool_decide (optionsRecord s !! normalizedKey = Some optionsObj)).
    + destruct (getValue normalizedKey s) as [| | | | |section];
        try (exists s; now split).
      split; [eauto|]. exists options. repeat split; auto.
    + destruct (getValue normalizedKey s) as [| | | | |section] eqn:Hsection;
        try (eexists; split; [reflexivity | reflexivity]).
      destruct (mapOptionValues_throws options section) eqn:Hthrows.
      * split; [discriminate|]. cbn [heap set_options].
        exists (mapOptionValues_interrupted options section). repeat split.
        -- apply lookup_insert_eq.
        -- apply keys_mapOptionValues_interrupted.
        -- intros key Habsent. now apply own_mapOptionValues_interrupted.
        -- intros other Hother. now apply lookup_insert_ne.
      * split; [eauto|]. cbn [heap set_options].
        exists (mapOptionValues options section). repeat split.
        -- apply lookup_insert_eq.
        -- apply keys_mapOptionValues.
        -- intros key Habsent. rewrite own_mapOptionValues, Habsent.
           now destruct (own options key).
        -- intros other Hother. now apply lookup_insert_ne.
Qed.

Lemma bind_touches_common_fields_only_witness :
  (forall (returned : loc) (s' : state),
      map "FooOptions" 0 bound_state = Some (returned, s') -> returned = 0)
  /\ (mapOptionValues_throws [("a", VNull); ("b", VNum (Int 1))] [("a", VStr "x")] = false ->
      is_Some (map "FooOptions" 0 bound_state))
  /\ exists bound : OptionsLike,
       heap (step bound_state (CallMap "FooOptions" 0)) !! 0 = Some bound
       /\ keys bound = ["a"; "b"]
       /\ (forall key : string,
              hasOwnProperty [("a", VStr "x")] key = false ->
              own bound key = own [("a", VNull); ("b", VNum (Int 1))] key)
       /\ (forall other : loc,
              other <> 0 ->
              heap (step bound_state (CallMap "FooOptions" 0)) !! other
              = heap bound_state !! other).
Proof.
  apply (bind_touches_common_fields_only bound_state "FooOptions" "foo" 0
           [("a", VNull); ("b", VNum (Int 1))]); reflexivity.
Defined.

(** C10: a call of [map] that reaches the coercion and returns, returns
    the very instance it was given, has rewritten that instance where it
    is, with no instance created, has recorded that same instance under
    the normalized name, and a further call with it is answered from the
    record with the same instance and nothing changed.  When the coercion
    throws, nothing is returned or recorded, and the instance is left,
    where it is, as far as it was bound. *)
Theorem bind_mutates_in_place_and_memoizes :
  forall (s : state) (className normalizedKey : string) (optionsObj : loc)
         (options : OptionsLike) (section : ConfigSection),
    getNormalizedKey className = Some normalizedKey ->
    heap s !! optionsObj = Some options ->
    getValue normalizedKey s = VObj section ->
    optionsRecord s !! normalizedKey <> Some optionsObj ->
    if mapOptionValues_throws options section
    then
      map className optionsObj s = None
      /\ heap (step s (CallMap className optionsObj))
         = <[optionsObj := mapOptionValues_interrupted options section]> (heap s)
      /\ dom (heap (step s (CallMap className optionsObj))) = dom (heap s)
      /\ optionsRecord (step s (CallMap className optionsObj)) !! normalizedKey = None
    else
      exists s' : state,
        map className optionsObj s = Some (optionsObj, s')
        /\ heap s' = <[optionsObj := mapOptionValues options section]> (heap s)
        /\ dom (heap s') = dom (heap s)
        /\ optionsRecord s' !! normalizedKey = Some optionsObj
        /\ map className optionsObj s' = Some (optionsObj, s').
Proof.
  intros s className normalizedKey optionsObj options section Hkey Hobj Hsection Hmiss.
  assert (Hdom : forall bound : OptionsLike, dom (<[optionsObj := bound]> (heap s)) = dom (heap s)).
  { intros bound. apply set_eq. intros l.
    rewrite dom_insert, elem_of_union, elem_of_singleton.
    split; [|tauto]. intros [->|Hl]; [|exact Hl]. apply elem_of_dom. eauto. }
  destruct (mapOptionValues_throws options section) eqn:Hthrows.
  - cbn [step]. unfold map, thrown. rewrite Hkey, Hobj, Hsection, Hthrows.
    rewrite bool_decide_eq_false_2 by exact Hmiss.
    cbn [heap optionsRecord set_options]. repeat split.
    + apply Hdom.
    + destruct (optionsRecord s !! normalizedKey) eqn:Hold;
        [apply lookup_delete_eq | exact Hold].
  - unfold map at 1. rewrite Hkey, Hobj, Hsection, Hthrows.
    rewrite bool_decide_eq_false_2 by exact Hmiss.
    eexists; split; [reflexivity|]. cbn [heap optionsRecord set_options].
    repeat split.
    + apply Hdom.
    + apply lookup_insert_eq.
    + unfold map. rewrite Hkey. cbn [heap optionsRecord set_options].
      rewrite !lookup_insert_eq. now rewrite bool_decide_eq_true_2.
Qed.

Lemma bind_mutates_in_place_and_memoizes_witness :
  exists s' : state,
    map "FooOptions" 0 bound_state = Some (0, s')
    /\ heap s' = <[0 := mapOptionValues [("a", VNull); ("b", VNum (Int 1))] [("a", VStr "x")]]>
                   (heap bound_state)
    /\ dom (heap s') = dom (heap bound_state)
    /\ optionsRecord s' !! "foo" = Some 0
    /\ map "FooOptions" 0 s' = Some (0, s').
Proof.
  apply (bind_mutates_in_place_and_memoizes bound_state "FooOptions" "foo" 0
           [("a", VNull); ("b", VNum (Int 1))] [("a", VStr "x")]);
    try reflexivity.
  discriminate.
Defined.

(** * Loading *)

(** C4: once a load has completed, [load(false)] returns [of] the cached
    snapshot and leaves the service as it was: no fetch is issued and no
    status is sent. *)
Theorem load_fast_path :
  forall s : state,
    completed s = true ->
    load false s = (s, Of (cachedConfig s))
    /\ fetches (fst (load false s)) = fetches s
    /\ loadEvents (fst (load false s)) = loadEvents s.
Proof.
  intros s Hcompleted. unfold load, loadInternal. rewrite Hcompleted. auto.
Qed.

Lemma load_fast_path_witness :
  load false loaded_state = (loaded_state, Of (cachedConfig loaded_state))
  /\ fetches (fst (load false loaded_state)) = fetches loaded_state
  /\ loadEvents (fst (load false loaded_state)) = loadEvents loaded_state.
Proof. apply (load_fast_path loaded_state). reflexivity. Defined.


(** * Loading: what the steps leave alone *)

Lemma getValue_snapshot (key : string) (s s' : state) :
  cachedConfig s' = cachedConfig s -> getValue key s' = getValue key s.
Proof. unfold getValue. now intros ->. Qed.

Lemma same_service_refl (s : state) : same_service s s.
Proof. now repeat split. Qed.

Lemma same_service_trans (s1 s2 s3 : state) :
  same_service s1 s2 -> same_service s2 s3 -> same_service s1 s3.
Proof.
  unfold same_service. intros (?&?&?&?&?&?&?&?) (?&?&?&?&?&?&?&?).
  repeat split; congruence.
Qed.

Lemma request_same_service (reload : bool) (index : nat) (p : ConfigProvider) (s : state) :
  same_service s (fst (request reload index p s)).
Proof.
  unfold request.
  destruct (if reload then None else read (fetchRequests s) (name p));
    simpl; now repeat split.
Qed.

Lemma requestAll_same_service (reload : bool) (ps : list ConfigProvider) :
  forall (index : nat) (s : state),
    same_service s (fst (requestAll reload index ps s)).
Proof.
  induction ps as [|p ps IH]; intros index s; simpl.
  - apply same_service_refl.
  - pose proof (request_same_service reload index p s) as Hhead.
    destruct (request reload index p s) as [s1 id]. simpl in Hhead.
    specialize (IH (S index) s1).
    destruct (requestAll reload (S index) ps s1) as [s2 ids]. simpl in *.
    eapply same_service_trans; eassumption.
Qed.

Lemma subscribe_fetches (own : bool) (ids : list nat) (s : state) :
  fetches (subscribe own ids s) = fetches s.
Proof.
  unfold subscribe, deliver.
  destruct (forkJoin (fetches s) ids); destruct own; reflexivity.
Qed.

Lemma deliver_fetches (own : bool) (ids : list nat) (s : state) :
  fetches (deliver own ids s) = fetches s.
Proof.
  unfold deliver. destruct (forkJoin (fetches s) ids); destruct own; reflexivity.
Qed.

(** * [forkJoin] *)

Lemma forkJoin_Error (fs : list fetch) (ids : list nat) (id : nat) :
  id ∈ ids -> outcome_at fs id = Rejected -> forkJoin fs ids = Error.
Proof.
  intros Hin Hrejected. unfold forkJoin.
  destruct ids as [|id0 ids]; [now apply elem_of_nil in Hin|].
  replace (existsb (fun id => is_rejected (outcome_at fs id)) (id0 :: ids)) with true;
    [reflexivity|].
  symmetry. apply existsb_exists. exists id. split.
  - now apply list_elem_of_In.
  - now rewrite Hrejected.
Qed.



Lemma forkJoin_Waiting (fs : list fetch) (ids : list nat) (id : nat) :
  Forall (fun i => outcome_at fs i <> Rejected) ids ->
  id ∈ ids -> outcome_at fs id = Pending ->
  forkJoin fs ids = Waiting.
Proof.
  intros Hnone Hin Hpending. unfold forkJoin.
  destruct ids as [|id0 ids]; [now apply elem_of_nil in Hin|].
  replace (existsb (fun i => is_rejected (outcome_at fs i)) (id0 :: ids)) with false.
  - destruct (mapM (fun i => fulfilled (outcome_at fs i)) (id0 :: ids)) as [configs|] eqn:Hmap;
      [|reflexivity].
    apply mapM_Some in Hmap.
    apply list_elem_of_lookup in Hin as [k Hk].
    destruct (Forall2_lookup_l _ _ _ _ _ Hmap Hk) as (config & _ & Hconfig).
    rewrite Hpending in Hconfig. discriminate Hconfig.
  - symmetry. apply not_true_iff_false. intros Hex.
    apply existsb_exists in Hex as (i & Hi & Hrej).
    apply list_elem_of_In in Hi.
    rewrite Forall_forall in Hnone. specialize (Hnone i Hi).
    destruct (outcome_at fs i); done.
Qed.


Lemma outcome_at_insert (fs : list fetch) (id : nat) (f : fetch) :
  id < length fs -> outcome_at (<[id := f]> fs) id = result f.
Proof.
  intros Hlt. unfold outcome_at. now rewrite list_lookup_insert_eq.
Qed.

Lemma outcome_at_insert_ne (fs : list fetch) (id other : nat) (f : fetch) :
  id <> other -> outcome_at (<[id := f]> fs) other = outcome_at fs other.
Proof.
  intros Hne. unfold outcome_at. now rewrite list_lookup_insert_ne.
Qed.

Lemma waits_on_elem (id : nat) (sub : bool * list nat) :
  waits_on id sub = true <-> id ∈ snd sub.
Proof.
  unfold waits_on. rewrite existsb_exists. split.
  - intros (i & Hin & Heq). apply Nat.eqb_eq in Heq as ->. now apply list_elem_of_In.
  - intros Hin. exists id. split; [now apply list_elem_of_In | apply Nat.eqb_refl].
Qed.

(** Serving subscribers whose join has failed: only the two flags can
    change, and they are reset once a subscription of the service itself
    is among them. *)
Lemma serve_failed (served : list (bool * list nat)) :
  forall s : state,
    Forall (fun sub => forkJoin (fetches s) (snd sub) = Error) served ->
    let s' := fold_left (fun st sub => deliver (fst sub) (snd sub) st) served s in
    fetches s' = fetches s
    /\ cachedConfig s' = cachedConfig s
    /\ optionsRecord s' = optionsRecord s
    /\ loadEvents s' = loadEvents s
    /\ subscribers s' = subscribers s
    /\ heap s' = heap s
    /\ (if existsb fst served
        then loading s' = false /\ completed s' = false
        else loading s' = loading s /\ completed s' = completed s).
Proof.
  induction served as [|[own ids] served IH]; intros s Hall; [now repeat split|].
  apply Forall_cons in Hall as [Hhead Hrest]. cbn [fold_left fst snd existsb].
  cbn [snd] in Hhead.
  assert (Hdeliver : deliver own ids s = if own then on_error s else s).
  { unfold deliver. now rewrite Hhead. }
  rewrite Hdeliver.
  specialize (IH (if own then on_error s else s)).
  destruct own; cbn [orb].
  - destruct IH as (Hf & Hc & Ho & He & Hs & Hh & Hflags); [exact Hrest|].
    destruct (existsb fst served); destruct Hflags as [Hl Hd];
      repeat split; assumption.
  - destruct IH as (Hf & Hc & Ho & He & Hs & Hh & Hflags); [exact Hrest|].
    destruct (existsb fst served); destruct Hflags as [Hl Hd];
      repeat split; assumption.
Qed.

(** C2: when a fetch of a load cycle fails, the joined operation of that
    cycle is an error, its subscription is over, [loading] and [completed]
    are both false, the snapshot and hence every [getValue] are as before,
    and no status is sent.  The same holds when [load] joins a fetch that
    had already failed, the only status sent being the [loading] of the
    start. *)
Theorem failed_fetch_fails_load :
  (forall (s : state) (ids : list nat) (id index : nat),
      (true, ids) ∈ subscribers s ->
      id ∈ ids ->
      fetches s !! id = Some {| source := index; result := Pending |} ->
      let s' := settle id None s in
      forkJoin (fetches s') ids = Error
      /\ ((true, ids) ∉ subscribers s')
      /\ loading s' = false
      /\ completed s' = false
      /\ cachedConfig s' = cachedConfig s
      /\ (forall key : string, getValue key s' = getValue key s)
      /\ loadEvents s' = loadEvents s)
  /\ (forall (s : state) (reload : bool) (ids : list nat),
         snd (load reload s) = ForkJoin ids ->
         forkJoin (fetches (fst (load reload s))) ids = Error ->
         let s' := fst (load reload s) in
         loading s' = false
         /\ completed s' = false
         /\ cachedConfig s' = cachedConfig s
         /\ (forall key : string, getValue key s' = getValue key s)
         /\ subscribers s' = subscribers s
         /\ loadEvents s'
            = loadEvents s
              ++ (if loading s then [] else [{| status := Some StatusLoading |}])).
Proof.
  split.
  - intros s ids id index Hsub Hid Hfetch s'.
    assert (Hlt : id < length (fetches s)) by (eapply lookup_lt_Some; exact Hfetch).
    set (rejected := {| source := index; result := Rejected |}).
    set (fs := <[id := rejected]> (fetches s)).
    assert (Hfails : forall sub : bool * list nat,
               waits_on id sub = true -> forkJoin fs (snd sub) = Error).
    { intros sub Hwaits. apply (forkJoin_Error fs (snd sub) id).
      - now apply waits_on_elem.
      - unfold fs. now rewrite outcome_at_insert. }
    pose proof (serve_failed (List.filter (waits_on id) (subscribers s))
                  (set_subscribers
                     (List.filter (fun sub => negb (waits_on id sub) || still_waiting fs sub)
                                  (subscribers s))
                     (set_requests (fetchRequests s) fs s))) as Hserve.
    assert (Hs' : s' = fold_left (fun st sub => deliver (fst sub) (snd sub) st)
                         (List.filter (waits_on id) (subscribers s))
                         (set_subscribers
                            (List.filter (fun sub => negb (waits_on id sub) || still_waiting fs sub)
                                         (subscribers s))
                            (set_requests (fetchRequests s) fs s))).
    { unfold s', settle. now rewrite Hfetch. }
    rewrite <- Hs' in Hserve. cbn zeta in Hserve.
    destruct Hserve as (Hf & Hc & _ & He & Hsubs & _ & Hflags).
    { apply Forall_forall. intros sub Hin. apply list_elem_of_In, filter_In in Hin as [_ Hw].
      cbn [fetches set_subscribers set_requests]. now apply Hfails. }
    cbn [fetches cachedConfig loadEvents subscribers set_subscribers set_requests] in *.
    replace (existsb fst (List.filter (waits_on id) (subscribers s))) with true in Hflags.
    2:{ symmetry. apply existsb_exists. exists (true, ids). split; [|reflexivity].
        apply filter_In. split; [now apply list_elem_of_In | now apply waits_on_elem]. }
    destruct Hflags as [Hloading Hcompleted].
    repeat split; try assumption.
    + rewrite Hf. now apply (Hfails (true, ids)), waits_on_elem.
    + rewrite Hsubs. intros Hin. apply list_elem_of_In, filter_In in Hin as [_ Hkept].
      unfold still_waiting in Hkept.
      rewrite (Hfails (true, ids)) in Hkept by now apply waits_on_elem.
      replace (waits_on id (true, ids)) with true in Hkept
        by (symmetry; now apply waits_on_elem).
      discriminate Hkept.
    + intros key. now apply getValue_snapshot.
  - intros s reload ids Hobs Hfail s'. subst s'.
    unfold load, loadInternal in *.
    destruct (completed s && negb reload); [discriminate Hobs|].
    set (s1 := if negb (loading s)
               then loadSubject_next {| status := Some StatusLoading |} (set_flags true false s)
               else s) in *.
    pose proof (requestAll_same_service reload (providers s1) 0 s1) as Hframe.
    destruct (requestAll reload 0 (providers s1) s1) as [s2 members].
    destruct (streams members) as [ids2|]; cbn [fst snd] in *; [|discriminate Hobs].
    injection Hobs as ->.
    rewrite subscribe_fetches in Hfail.
    unfold subscribe, deliver. rewrite Hfail. cbn.
    destruct Hframe as (_ & _ & _ & Hc & _ & He & Hsubs & _).
    assert (Hstart : cachedConfig s1 = cachedConfig s /\ subscribers s1 = subscribers s
                     /\ loadEvents s1
                        = loadEvents s
                          ++ (if loading s then [] else [{| status := Some StatusLoading |}])).
    { unfold s1. destruct (loading s); cbn; repeat split; auto. now rewrite app_nil_r. }
    destruct Hstart as (Hc1 & Hs1 & He1).
    repeat split; try congruence.
    intros key. apply getValue_snapshot. cbn. congruence.
Qed.


Lemma failed_fetch_fails_load_witness :
  (let s' := settle 0 None two_pending in
   forkJoin (fetches s') [0; 1] = Error
   /\ ((true, [0; 1]) ∉ subscribers s')
   /\ loading s' = false
   /\ completed s' = false
   /\ cachedConfig s' = cachedConfig two_pending
   /\ (forall key : string, getValue key s' = getValue key two_pending)
   /\ loadEvents s' = loadEvents two_pending)
  /\ (let s' := fst (load false one_failed) in
      loading s' = false
      /\ completed s' = false
      /\ cachedConfig s' = cachedConfig one_failed
      /\ (forall key : string, getValue key s' = getValue key one_failed)
      /\ subscribers s' = subscribers one_failed
      /\ loadEvents s'
         = loadEvents one_failed
           ++ (if loading one_failed then [] else [{| status := Some StatusLoading |}])).
Proof.
  split.
  - apply (proj1 failed_fetch_fails_load two_pending [0; 1] 0 0).
    + apply list_elem_of_In. vm_compute. now left.
    + apply list_elem_of_In. simpl. now left.
    + reflexivity.
  - apply (proj2 failed_fetch_fails_load one_failed false [0; 1]); reflexivity.
Defined.

(** * Merging and the record of bound options *)

Lemma deliver_merges (own : bool) (ids : list nat) (s : state) :
  fetches (deliver own ids s) = fetches s
  /\ exists emitted : list ConfigLoadingContext,
       loadEvents (deliver own ids s) = loadEvents s ++ emitted
       /\ (merged s \/ loaded_context ∈ emitted -> merged (deliver own ids s)).
Proof.
  split; [apply deliver_fetches|].
  unfold deliver.
  destruct (forkJoin (fetches s) ids) as [configs| | |] eqn:Hjoin.
  - exists (if own then [loaded_context] else []). split.
    + destruct own; cbn; [reflexivity | now rewrite app_nil_r].
    + intros _. split; [now destruct own|].
      exists ids, configs. now destruct own.
  - exists []. split; [destruct own; cbn; now rewrite app_nil_r|].
    intros [Hmerged|Hin]; [|now apply elem_of_nil in Hin].
    now destruct own.
  - exists []. split; [now rewrite app_nil_r|].
    intros [Hmerged|Hin]; [exact Hmerged | now apply elem_of_nil in Hin].
  - exists []. split; [now rewrite app_nil_r|].
    intros [Hmerged|Hin]; [exact Hmerged | now apply elem_of_nil in Hin].
Qed.

Lemma serve_merges (served : list (bool * list nat)) :
  forall s : state,
    let s' := fold_left (fun st sub => deliver (fst sub) (snd sub) st) served s in
    exists emitted : list ConfigLoadingContext,
      loadEvents s' = loadEvents s ++ emitted
      /\ (merged s \/ loaded_context ∈ emitted -> merged s').
Proof.
  induction served as [|[own ids] served IH]; intros s; cbn [fold_left fst snd].
  - exists []. split; [now rewrite app_nil_r|].
    intros [Hmerged|Hin]; [exact Hmerged | now apply elem_of_nil in Hin].
  - destruct (deliver_merges own ids s) as (_ & first & Hfirst & Hmerged1).
    destruct (IH (deliver own ids s)) as (later & Hlater & Hmerged2).
    exists (first ++ later). split.
    + rewrite Hlater, Hfirst. now rewrite app_assoc.
    + intros [Hmerged|Hin]; apply Hmerged2.
      * left. apply Hmerged1. now left.
      * apply elem_of_app in Hin as [Hin|Hin]; [left; apply Hmerged1; now right | now right].
Qed.

Lemma map_loadEvents (className : string) (optionsObj : loc) (s s' : state) (l : loc) :
  map className optionsObj s = Some (l, s') -> loadEvents s' = loadEvents s.
Proof.
  unfold map.
  destruct (getNormalizedKey className); [|discriminate].
  destruct (heap s !! optionsObj); [|discriminate].
  destruct (bool_decide _); [now intros [= _ <-]|].
  destruct (getValue _ s); try (now intros [= _ <-]).
  destruct (mapOptionValues_throws _ _); [discriminate | now intros [= _ <-]].
Qed.

(** A call of [map] that throws touches the record of bound options and
    the instance only, and adds nothing to the record. *)
Lemma thrown_service (className : string) (optionsObj : loc) (s : state) :
  sortedConfigProviders (thrown className optionsObj s) = sortedConfigProviders s
  /\ fetchRequests (thrown className optionsObj s) = fetchRequests s
  /\ loading (thrown className optionsObj s) = loading s
  /\ completed (thrown className optionsObj s) = completed s
  /\ cachedConfig (thrown className optionsObj s) = cachedConfig s
  /\ loadEvents (thrown className optionsObj s) = loadEvents s
  /\ fetches (thrown className optionsObj s) = fetches s
  /\ subscribers (thrown className optionsObj s) = subscribers s
  /\ (forall (n : string) (l : loc),
         optionsRecord (thrown className optionsObj s) !! n = Some l ->
         optionsRecord s !! n = Some l).
Proof.
  unfold thrown.
  destruct (getNormalizedKey className) as [normalizedKey|]; [|now repeat split].
  destruct (heap s !! optionsObj) as [options|]; [|now repeat split].
  destruct (getValue normalizedKey s); try (now repeat split).
  repeat split. intros n l. cbn [optionsRecord set_options].
  destruct (optionsRecord s !! normalizedKey) eqn:Hold; [|auto].
  destruct (decide (normalizedKey = n)) as [<-|Hne].
  - now rewrite lookup_delete_eq.
  - now rewrite lookup_delete_ne.
Qed.

Lemma bind_afresh_when_merged (className : string) (optionsObj : loc) (s : state) :
  optionsRecord s = ∅ -> map className optionsObj s = bind_afresh className optionsObj s.
Proof.
  intros Hempty. unfold map, bind_afresh.
  destruct (getNormalizedKey className) as [normalizedKey|]; [|reflexivity].
  destruct (heap s !! optionsObj) as [options|]; [|reflexivity].
  rewrite Hempty, lookup_empty.
  rewrite bool_decide_eq_false_2 by discriminate.
  rewrite <- Hempty.
  destruct (getValue normalizedKey s); try reflexivity; try (now rewrite set_options_same).
Qed.

(** The step sent no status: [nothing_sent Hevents Hloaded] closes the
    goal from [Hevents : loadEvents s = loadEvents s ++ emitted] and
    [Hloaded : loaded_context ∈ emitted]. *)
Ltac nothing_sent Hevents Hloaded :=
  rewrite <- (app_nil_r (loadEvents _)) in Hevents at 1;
  apply app_inv_head in Hevents as <-;
  now apply elem_of_nil in Hloaded.

Lemma step_loaded_merged (s : state) (e : event) (emitted : list ConfigLoadingContext) :
  loadEvents (step s e) = loadEvents s ++ emitted ->
  loaded_context ∈ emitted ->
  merged (step s e).
Proof.
  intros Hevents Hloaded.
  destruct e as [reLoad|[config|ids|]|id outcome_now|className optionsObj];
    cbn [step] in *.
  - unfold load, loadInternal in *.
    destruct (completed s && negb reLoad); [cbn [fst] in Hevents; nothing_sent Hevents Hloaded|].
    set (s1 := if negb (loading s)
               then loadSubject_next {| status := Some StatusLoading |} (set_flags true false s)
               else s) in *.
    pose proof (requestAll_same_service reLoad (providers s1) 0 s1) as Hframe.
    destruct (requestAll reLoad 0 (providers s1) s1) as [s2 members].
    cbn [fst snd] in *.
    destruct Hframe as (_ & _ & _ & _ & _ & He2 & _ & _).
    assert (Hstart : exists started, loadEvents s1 = loadEvents s ++ started
                                     /\ loaded_context ∉ started).
    { unfold s1. destruct (loading s); cbn.
      - exists []. split; [now rewrite app_nil_r | apply not_elem_of_nil].
      - eexists. split; [reflexivity|].
        intros Hin. apply list_elem_of_singleton in Hin. discriminate Hin. }
    destruct Hstart as (started & Hs1 & Hnot).
    destruct (streams members) as [ids|]; cbn [fst snd] in *.
    2:{ cbn in Hevents. rewrite He2, Hs1 in Hevents.
        apply app_inv_head in Hevents as <-. contradiction. }
    unfold subscribe in *.
    destruct (deliver_merges true ids s2) as (_ & first & Hfirst & Hmerged1).
    destruct (forkJoin (fetches s2) ids) eqn:Hjoin.
    4:{ cbn in Hevents. rewrite He2, Hs1 in Hevents.
        apply app_inv_head in Hevents as <-. contradiction. }
    all: apply Hmerged1; right;
      rewrite Hfirst, He2, Hs1, <- app_assoc in Hevents;
      apply app_inv_head in Hevents as <-;
      apply elem_of_app in Hloaded as [Hin|Hin]; [contradiction | exact Hin].
  - nothing_sent Hevents Hloaded.
  - unfold subscribe in *.
    assert (Hnone : loadEvents (deliver false ids s) = loadEvents s).
    { unfold deliver. now destruct (forkJoin (fetches s) ids). }
    destruct (forkJoin (fetches s) ids) eqn:Hjoin.
    4:{ cbn in Hevents. nothing_sent Hevents Hloaded. }
    all: rewrite Hnone in Hevents; nothing_sent Hevents Hloaded.
  - nothing_sent Hevents Hloaded.
  - unfold settle in *.
    destruct (fetches s !! id) as [[index [| |]]|];
      try nothing_sent Hevents Hloaded.
    match type of Hevents with
    | loadEvents (fold_left _ ?served ?s0) = _ =>
        destruct (serve_merges served s0) as (sent & Hsent & Hmerged)
    end.
    cbn zeta in Hsent, Hmerged. apply Hmerged. right.
    rewrite Hsent in Hevents. cbn [loadEvents set_subscribers set_requests] in Hevents.
    now apply app_inv_head in Hevents as <-.
  - destruct (map className optionsObj s) as [[l s']|] eqn:Hmap.
    + apply map_loadEvents in Hmap. rewrite Hmap in Hevents. nothing_sent Hevents Hloaded.
    + destruct (thrown_service className optionsObj s) as (_ & _ & _ & _ & _ & He & _).
      rewrite He in Hevents. nothing_sent Hevents Hloaded.
Qed.

(** C6: every merge delivered to a subscriber, the service's own or a
    caller's, replaces the snapshot and empties the record of bound
    options.  Hence a step in which the status [loaded] is sent, that is,
    in which a load cycle of the service succeeds, leaves the record empty
    and the snapshot equal to the merge of a complete join; [map] then
    binds any type and instance against that snapshot, whatever had been
    on record for it. *)
Theorem merge_invalidates_bound_options :
  (forall (own : bool) (ids : list nat) (s : state) (configs : list ConfigSection),
      forkJoin (fetches s) ids = Next configs ->
      cachedConfig (deliver own ids s) = mergeConfigs configs
      /\ optionsRecord (deliver own ids s) = ∅)
  /\ (forall (s : state) (e : event) (emitted : list ConfigLoadingContext),
         loadEvents (step s e) = loadEvents s ++ emitted ->
         loaded_context ∈ emitted ->
         optionsRecord (step s e) = ∅
         /\ (exists (ids : list nat) (configs : list ConfigSection),
                forkJoin (fetches (step s e)) ids = Next configs
                /\ cachedConfig (step s e) = mergeConfigs configs)
         /\ (forall (className : string) (optionsObj : loc),
                map className optionsObj (step s e)
                = bind_afresh className optionsObj (step s e))).
Proof.
  split.
  - intros own ids s configs Hjoin. unfold deliver. rewrite Hjoin. now destruct own.
  - intros s e emitted Hevents Hloaded.
    destruct (step_loaded_merged s e emitted Hevents Hloaded) as [Hempty Hjoin].
    split; [exact Hempty|]. split; [exact Hjoin|].
    intros className optionsObj. now apply bind_afresh_when_merged.
Qed.


(** * Issuing the fetches *)

Lemma issued_length (index count : nat) : length (issued index count) = count.
Proof. unfold issued. now rewrite length_fmap, length_seq. Qed.

Lemma issued_succ (index count : nat) :
  issued index (S count) = {| source := index; result := Pending |} :: issued (S index) count.
Proof. reflexivity. Qed.

Lemma outcome_at_issued (count id : nat) : outcome_at (issued 0 count) id = Pending.
Proof.
  unfold outcome_at, issued. rewrite list_lookup_fmap.
  destruct (seq 0 count !! id); reflexivity.
Qed.

Lemma request_fresh (reload : bool) (index : nat) (p : ConfigProvider) (s : state) :
  reload = true \/ (inherited (name p) = false /\ fetchRequests s !! name p = None) ->
  request reload index p s
  = (set_requests (<[name p := length (fetches s)]> (fetchRequests s))
                  (fetches s ++ [{| source := index; result := Pending |}]) s,
     Stream (length (fetches s))).
Proof.
  intros Hfresh. unfold request, read.
  destruct reload; [reflexivity|].
  destruct Hfresh as [Hreload|[Hown Hnone]]; [discriminate Hreload|]. now rewrite Hnone, Hown.
Qed.

Lemma requestAll_fresh (reload : bool) (ps : list ConfigProvider) :
  forall (index : nat) (s : state),
    reload = true
    \/ (NoDup (name <$> ps) /\ none_inherited ps
        /\ forall p, p ∈ ps -> fetchRequests s !! name p = None) ->
    exists s' : state,
      requestAll reload index ps s = (s', Stream <$> seq (length (fetches s)) (length ps))
      /\ fetches s' = fetches s ++ issued index (length ps)
      /\ (forall n, is_Some (fetchRequests s !! n) -> is_Some (fetchRequests s' !! n))
      /\ (forall p, p ∈ ps -> is_Some (fetchRequests s' !! name p)).
Proof.
  induction ps as [|p ps IH]; intros index s Hfresh.
  - exists s. repeat split; auto.
    + cbn. now rewrite app_nil_r.
    + intros p Hin. now apply elem_of_nil in Hin.
  - cbn [requestAll]. rewrite request_fresh.
    2:{ destruct Hfresh as [->|(_ & Hown & Hnone)]; [now left|]. right. split.
        - now apply Forall_cons in Hown as [Hown _].
        - apply Hnone. apply elem_of_cons. now left. }
    set (s1 := set_requests _ _ s).
    destruct (IH (S index) s1) as (s' & Hall & Hfetches & Hmono & Hrecorded).
    { destruct Hfresh as [->|(Hnodup & Hown & Hnone)]; [now left|]. right.
      rewrite fmap_cons in Hnodup. apply NoDup_cons in Hnodup as [Hhead Hnodup].
      split; [exact Hnodup|]. split; [now apply Forall_cons in Hown as [_ Hown]|].
      intros q Hq. unfold s1. cbn [fetchRequests set_requests].
      rewrite lookup_insert_ne.
      - apply Hnone. apply elem_of_cons. now right.
      - intros Heq. apply Hhead. rewrite Heq. now apply list_elem_of_fmap_2. }
    exists s'. rewrite Hall.
    unfold s1 in *. cbn [fetches set_requests fetchRequests] in *.
    rewrite length_app in *. cbn [length] in *.
    repeat split.
    + cbn [length seq fmap list_fmap]. do 4 f_equal. lia.
    + rewrite Hfetches, <- app_assoc. reflexivity.
    + intros n Hn. apply Hmono.
      destruct (decide (name p = n)) as [->|Hne].
      * rewrite lookup_insert_eq. eauto.
      * now rewrite lookup_insert_ne.
    + intros q Hq. apply elem_of_cons in Hq as [->|Hq]; [|now apply Hrecorded].
      apply Hmono. rewrite lookup_insert_eq. eauto.
Qed.

Lemma requestAll_cached (ps : list ConfigProvider) :
  forall (index : nat) (s : state),
    (forall p, p ∈ ps -> is_Some (read (fetchRequests s) (name p))) ->
    fst (requestAll false index ps s) = s.
Proof.
  induction ps as [|p ps IH]; intros index s Hcached; [reflexivity|].
  cbn [requestAll]. unfold request.
  destruct (Hcached p) as [found Hfound]; [apply elem_of_cons; now left|].
  rewrite Hfound. specialize (IH (S index) s).
  destruct (requestAll false (S index) ps s) as [s2 members]. cbn [fst] in *.
  apply IH. intros q Hq. apply Hcached. apply elem_of_cons. now right.
Qed.

Lemma read_recorded (requests : gmap string nat) (loaderName : string) :
  is_Some (requests !! loaderName) -> is_Some (read requests loaderName).
Proof. intros [id Hid]. unfold read. rewrite Hid. eauto. Qed.

Lemma streams_fetches (ids : list nat) : streams (Stream <$> ids) = Some ids.
Proof.
  unfold streams. apply mapM_Some. induction ids as [|id ids IH]; constructor; auto.
Qed.

Lemma forkJoin_issued (count : nat) :
  forkJoin (issued 0 count) (seq 0 count)
  = match count with 0 => Complete | S _ => Waiting end.
Proof.
  destruct count as [|count]; [reflexivity|].
  apply (forkJoin_Waiting _ _ 0).
  - apply Forall_forall. intros i _. now rewrite outcome_at_issued.
  - cbn. apply elem_of_cons. now left.
  - apply outcome_at_issued.
Qed.

(** The state a new service is in when its first [load] returns. *)
Lemma first_load (reload : bool) (ps : list ConfigProvider) (h : gmap loc OptionsLike) :
  reload = true \/ (NoDup (name <$> ps) /\ none_inherited ps) ->
  let s1 := fst (load reload (constructor ps h)) in
  snd (load reload (constructor ps h)) = ForkJoin (seq 0 (length ps))
  /\ fetches s1 = issued 0 (length ps)
  /\ subscribers s1 = match ps with [] => [] | _ => [(true, seq 0 (length ps))] end
  /\ loading s1 = true
  /\ completed s1 = false
  /\ cachedConfig s1 = []
  /\ optionsRecord s1 = ∅
  /\ loadEvents s1 = [{| status := Some StatusLoading |}]
  /\ sortedConfigProviders s1 = reverse ps
  /\ heap s1 = h
  /\ (forall p, p ∈ ps -> is_Some (fetchRequests s1 !! name p)).
Proof.
  intros Hfresh. unfold load, loadInternal. cbn [completed loading constructor andb negb].
  set (s0 := loadSubject_next _ _).
  destruct (requestAll_fresh reload (reverse ps) 0 s0) as (s2 & Hall & Hfetches & _ & Hrecorded).
  { destruct Hfresh as [->|[Hnodup Hown]]; [now left|]. right. split; [|split].
    - now rewrite fmap_reverse, reverse_Permutation.
    - unfold none_inherited. now rewrite reverse_Permutation.
    - intros p _. apply lookup_empty. }
  pose proof (requestAll_same_service reload (reverse ps) 0 s0) as Hframe.
  change (providers s0) with (reverse ps). rewrite Hall in *. rewrite streams_fetches.
  cbn [fst snd] in *.
  change (fetches s0) with (@nil fetch) in *. cbn [length app] in *.
  rewrite length_reverse in *.
  destruct Hframe as (Hp & Hl & Hc & Hcfg & Hrec & Hev & Hsubs & Hheap).
  unfold subscribe, deliver. rewrite Hfetches, forkJoin_issued.
  destruct ps as [|p ps]; cbn [length].
  - repeat split; try assumption;
      try (intros p Hin; now apply elem_of_nil in Hin).
  - cbn [subscribers set_subscribers loading completed cachedConfig optionsRecord
         loadEvents sortedConfigProviders heap fetches fetchRequests].
    rewrite Hsubs. repeat split; try assumption.
    intros q Hq. apply Hrecorded. now apply elem_of_reverse.
Qed.


(** * Concurrent loads *)

Lemma issued_invocations (index count : nat) :
  forall base : nat,
    length (List.filter (fun f => (source f =? index)%nat) (issued base count))
    = if ((base <=? index) && (index <? base + count))%nat then 1 else 0.
Proof.
  induction count as [|count IH]; intros base.
  - change (issued base 0) with (@nil fetch). cbn [List.filter length].
    destruct (Nat.leb_spec base index), (Nat.ltb_spec index (base + 0));
      cbn [andb]; try reflexivity; lia.
  - rewrite issued_succ. cbn [List.filter source].
    destruct (Nat.eqb_spec base index) as [->|Hne]; cbn [length]; rewrite IH.
    + destruct (Nat.leb_spec (S index) index), (Nat.leb_spec index index),
               (Nat.ltb_spec index (S index + count)), (Nat.ltb_spec index (index + S count));
        cbn [andb]; try reflexivity; lia.
    + destruct (Nat.leb_spec (S base) index), (Nat.leb_spec base index),
               (Nat.ltb_spec index (S base + count)), (Nat.ltb_spec index (base + S count));
        cbn [andb]; try reflexivity; lia.
Qed.

Lemma second_load_fetches (ps : list ConfigProvider) (h : gmap loc OptionsLike) :
  NoDup (name <$> ps) -> none_inherited ps ->
  fetches (run [CallLoad false; CallLoad false] (constructor ps h)) = issued 0 (length ps).
Proof.
  intros Hnodup Hown. cbn [run fold_left step].
  destruct (first_load false ps h (or_intror (conj Hnodup Hown)))
    as (_ & Hfetches & _ & Hloading & Hcompleted & _ & _ & _ & Hproviders & _ & Hrecorded).
  set (s1 := fst (load false (constructor ps h))) in *.
  unfold load at 1, loadInternal. rewrite Hcompleted, Hloading. cbn [andb negb].
  pose proof (requestAll_cached (providers s1) 0 s1) as Hcached.
  destruct (requestAll false 0 (providers s1) s1) as [s2 members]. cbn [fst] in *.
  assert (Hsame : s2 = s1).
  { apply Hcached. intros p Hp. apply read_recorded, Hrecorded.
    unfold providers in Hp. rewrite Hproviders in Hp.
    exact (proj1 (elem_of_reverse _ _) Hp). }
  destruct (streams members) as [ids|]; cbn [fst].
  - now rewrite subscribe_fetches, Hsame.
  - now rewrite Hsame.
Qed.

(** C7 as stated fails when two providers share a name: of two
    providers named ["a"], [load()] of the first registered one is never
    called. *)
Lemma shared_name_fetched_never :
  ~ fetched_once [{| name := "a" |}; {| name := "a" |}] ∅.
Proof.
  intros Honce. specialize (Honce 1). vm_compute in Honce.
  assert (H : 0 = 1) by (apply Honce; lia). discriminate H.
Qed.

(** C7 as stated fails as well for a provider named like a member of
    [Object.prototype]: [this.fetchRequests["toString"]] is that member,
    which is truthy, so [load()] of the provider is never called, and the
    join, handed a function, fails. *)
Lemma inherited_name_fetched_never :
  ~ fetched_once [{| name := "toString" |}] ∅
  /\ load false (constructor [{| name := "toString" |}] ∅)
     = (loadSubject_next {| status := Some StatusLoading |}
          (constructor [{| name := "toString" |}] ∅),
        Failing).
Proof.
  split; [|reflexivity].
  intros Honce. specialize (Honce 0). vm_compute in Honce.
  assert (H : 0 = 1) by (apply Honce; lia). discriminate H.
Qed.

(** C7, amended: when the registered providers have pairwise distinct
    names, none of them the name of a member of [Object.prototype], two
    calls of [load()] in a row, before any fetch settles, call [load()] of
    every provider exactly once.  For any provider, a fetch on record
    under its name is reused when [reload] is false; when [reload] is true
    a new fetch is issued and put on record under that name. *)
Theorem concurrent_loads_fetch_once :
  forall (configProviders : list ConfigProvider) (h : gmap loc OptionsLike),
    NoDup (name <$> configProviders) ->
    none_inherited configProviders ->
    fetched_once configProviders h
    /\ (forall (s : state) (index : nat) (p : ConfigProvider) (id : nat),
           fetchRequests s !! name p = Some id ->
           request false index p s = (s, Stream id))
    /\ (forall (s : state) (index : nat) (p : ConfigProvider),
           request true index p s
           = (set_requests (<[name p := length (fetches s)]> (fetchRequests s))
                           (fetches s ++ [{| source := index; result := Pending |}]) s,
              Stream (length (fetches s)))).
Proof.
  intros configProviders h Hnodup Hown. split; [|split].
  - intros index Hindex. unfold invocations.
    rewrite second_load_fetches by assumption.
    rewrite issued_invocations. cbn [Nat.leb andb Nat.add].
    now replace (index <? length configProviders)%nat with true
      by (symmetry; now apply Nat.ltb_lt).
  - intros s index p id Hid. unfold request, read. now rewrite Hid.
  - intros s index p. apply request_fresh. now left.
Qed.

Lemma concurrent_loads_fetch_once_witness :
  fetched_once [{| name := "a" |}; {| name := "b" |}] ∅
  /\ (forall (s : state) (index : nat) (p : ConfigProvider) (id : nat),
         fetchRequests s !! name p = Some id ->
         request false index p s = (s, Stream id))
  /\ (forall (s : state) (index : nat) (p : ConfigProvider),
         request true index p s
         = (set_requests (<[name p := length (fetches s)]> (fetchRequests s))
                         (fetches s ++ [{| source := index; result := Pending |}]) s,
            Stream (length (fetches s)))).
Proof.
  apply (concurrent_loads_fetch_once [{| name := "a" |}; {| name := "b" |}] ∅).
  - apply (bool_decide_unpack _). vm_compute. exact I.
  - repeat constructor.
Defined.


(** * A load cycle that succeeds *)

Lemma own_assign (fields : object) (key other : string) (v : value) :
  own (assign fields key v) other
  = if String.eqb key other then Some v else own fields other.
Proof.
  induction fields as [|[k w] fields IH]; cbn [assign own].
  - reflexivity.
  - destruct (String.eqb_spec k key) as [->|Hne]; cbn [own].
    + now destruct (String.eqb key other).
    + rewrite IH. destruct (String.eqb_spec k other) as [->|Hother]; [|reflexivity].
      now rewrite (proj2 (String.eqb_neq key other)) by congruence.
Qed.

Lemma own_absent (fields : object) (key : string) :
  key ∉ keys fields -> own fields key = None.
Proof.
  induction fields as [|[k v] fields IH]; [reflexivity|].
  cbn [keys List.map fst own]. intros Hnot.
  apply not_elem_of_cons in Hnot as [Hne Hnot].
  rewrite (proj2 (String.eqb_neq k key)) by congruence. now apply IH.
Qed.

(** In [{ ...a, ...b }] a key of [b] has the value [b] gives it. *)
Lemma own_spread (b : object) :
  forall (a : object) (key : string),
    NoDup (keys b) ->
    own (spread a b) key
    = match own b key with
      | Some v => Some v
      | None => own a key
      end.
Proof.
  induction b as [|[k v] b IH]; intros a key Hnodup; [reflexivity|].
  cbn [keys List.map fst] in Hnodup. apply NoDup_cons in Hnodup as [Hfresh Hnodup].
  unfold spread in *. cbn [fold_left fst snd own].
  rewrite IH by exact Hnodup. rewrite own_assign.
  destruct (String.eqb_spec k key) as [->|Hne]; [|reflexivity].
  now rewrite own_absent.
Qed.













(** C1 as stated fails as well for a provider named like a member of
    [Object.prototype]: with [reload] unset it is never fetched, nothing
    is there to settle and the snapshot stays empty. *)
Lemma inherited_name_section_lost :
  ~ merges_in_reverse_order false [{| name := "toString" |}] [[("k", VStr "v")]] ∅.
Proof.
  intros Hmerges.
  destruct (Hmerges _ (reflexivity _)) as [Hsnapshot _].
  vm_compute in Hsnapshot. discriminate Hsnapshot.
Qed.




(** * The path accessor *)

Lemma traverse_falsy (segments : list string) (acc : value) :
  truthy acc = false ->
  fold_left (fun acc current => if truthy acc then get acc current else acc) segments acc
  = acc.
Proof.
  intros Hfalsy. induction segments as [|segment segments IH]; [reflexivity|].
  cbn [fold_left]. now rewrite Hfalsy.
Qed.

(** The reduction of [getValue] follows [resolve] through nested
    sections. *)
Lemma traverse_resolved (front more : list string) :
  forall start found : value,
    resolve start front = Some found ->
    fold_left (fun acc current => if truthy acc then get acc current else acc)
              (front ++ more) start
    = fold_left (fun acc current => if truthy acc then get acc current else acc)
                more found.
Proof.
  induction front as [|segment front IH]; intros start found Hresolve.
  - now injection Hresolve as ->.
  - cbn [resolve] in Hresolve. destruct start as [| | | | |fields]; try discriminate Hresolve.
    destruct (own fields segment) as [next|] eqn:Hnext; [|discriminate Hresolve].
    cbn [app fold_left truthy get]. rewrite Hnext. cbn [default from_option id].
    now apply IH.
Qed.

(** Where every segment resolves through nested sections, [getValue]
    returns the value found at the last one, [null] standing for
    [undefined]. *)
Lemma getValue_resolved (key : string) (s : state) (found : value) :
  resolve (VObj (cachedConfig s)) (split key) = Some found ->
  getValue key s = match found with VUndefined => VNull | _ => found end.
Proof.
  intros Hresolve. unfold getValue.
  rewrite <- (app_nil_r (split key)).
  now rewrite (traverse_resolved (split key) [] _ found Hresolve).
Qed.

(** A segment missing from the section reached so far, and not the name
    of a member of [Object.prototype], gives [null]. *)
Lemma getValue_missing (key : string) (s : state) (front rest : list string)
    (segment : string) (fields : object) :
  split key = front ++ segment :: rest ->
  resolve (VObj (cachedConfig s)) front = Some (VObj fields) ->
  own fields segment = None ->
  inherited_by (VObj fields) segment = false ->
  getValue key s = VNull.
Proof.
  intros Hsplit Hfront Hmissing _. unfold getValue.
  rewrite Hsplit, (traverse_resolved front _ _ _ Hfront).
  cbn [fold_left truthy get]. rewrite Hmissing. cbn [default from_option id].
  now rewrite traverse_falsy.
Qed.

(** C5, where the code departs from it: whatever the snapshot and the
    path, a falsy value reached before the last segment is what
    [getValue] returns; for the number [0], [false] and the empty string
    that is not [null].  So with the snapshot [{a: 0}] the path ["a.b"]
    gives [0]. *)
Theorem getValue_leaks_falsy_intermediate :
  forall (key : string) (s : state) (front rest : list string) (segment : string)
         (reached : value),
    split key = front ++ segment :: rest ->
    resolve (VObj (cachedConfig s)) front = Some reached ->
    truthy reached = false ->
    getValue key s = match reached with VUndefined => VNull | _ => reached end.
Proof.
  intros key s front rest segment reached Hsplit Hfront Hfalsy. unfold getValue.
  rewrite Hsplit, (traverse_resolved front _ _ _ Hfront).
  now rewrite traverse_falsy.
Qed.

Lemma getValue_leaks_falsy_intermediate_witness :
  getValue "a.b" (with_snapshot [("a", VNum (Int 0))]) = VNum (Int 0).
Proof.
  apply (getValue_leaks_falsy_intermediate "a.b" (with_snapshot [("a", VNum (Int 0))])
           ["a"] [] "b" (VNum (Int 0))); reflexivity.
Defined.

(** Around the failing input: [false] and the empty string leak in the
    same way, a truthy number does not, and paths through sections
    behave as specified. *)
Lemma getValue_examples :
  getValue "a.b" (with_snapshot [("a", VBool false)]) = VBool false
  /\ getValue "a.b" (with_snapshot [("a", VStr EmptyString)]) = VStr EmptyString
  /\ getValue "a.b" (with_snapshot [("a", VNum (Int 1))]) = VNull
  /\ getValue "a.x.c" (with_snapshot [("a", VObj [("b", VObj [("c", VNum (Int 5))])])]) = VNull
  /\ getValue "a.b.c" (with_snapshot [("a", VObj [("b", VObj [("c", VNum (Int 5))])])])
     = VNum (Int 5).
Proof. repeat split. Qed.

(** * Rebinding after a reload *)

Lemma merge_invalidates_bound_options_witness :
  (cachedConfig (deliver true [1] reloaded) = mergeConfigs [[("foo", VObj [("a", VNum (Int 2))])]]
   /\ optionsRecord (deliver true [1] reloaded) = ∅)
  /\ optionsRecord (step rebinding (Settle 1 (Some [("foo", VObj [("a", VNum (Int 2))])]))) = ∅
  /\ (exists (ids : list nat) (configs : list ConfigSection),
         forkJoin (fetches (step rebinding (Settle 1 (Some [("foo", VObj [("a", VNum (Int 2))])]))))
                  ids = Next configs
         /\ cachedConfig (step rebinding (Settle 1 (Some [("foo", VObj [("a", VNum (Int 2))])])))
            = mergeConfigs configs)
  /\ (forall (className : string) (optionsObj : loc),
         map className optionsObj
             (step rebinding (Settle 1 (Some [("foo", VObj [("a", VNum (Int 2))])])))
         = bind_afresh className optionsObj
             (step rebinding (Settle 1 (Some [("foo", VObj [("a", VNum (Int 2))])])))).
Proof.
  split.
  - apply (proj1 merge_invalidates_bound_options true [1] reloaded
             [[("foo", VObj [("a", VNum (Int 2))])]]).
    reflexivity.
  - apply (proj2 merge_invalidates_bound_options rebinding
             (Settle 1 (Some [("foo", VObj [("a", VNum (Int 2))])]))
             [loaded_context]).
    + reflexivity.
    + apply list_elem_of_singleton. reflexivity.
Defined.

(** The instance bound before the reload held the value of the first
    snapshot and was on record; bound again after the reload it holds
    the value of the second. *)
Lemma rebind_after_reload :
  heap rebinding !! 0 = Some [("a", VStr "1")]
  /\ optionsRecord rebinding !! "foo" = Some 0
  /\ map "FooOptions" 0 rebinding = Some (0, rebinding)
  /\ optionsRecord reloaded !! "foo" = None
  /\ (exists s' : state,
         map "FooOptions" 0 reloaded = Some (0, s')
         /\ heap s' !! 0 = Some [("a", VStr "2")]
         /\ optionsRecord s' !! "foo" = Some 0).
Proof.
  repeat split.
  eexists. repeat split.
Qed.


(** * The record of bound options along a run *)

Lemma record_current_frame (s s' : state) :
  cachedConfig s' = cachedConfig s ->
  optionsRecord s' = optionsRecord s ->
  record_current s -> record_current s'.
Proof.
  intros Hconfig Hrecord Hcurrent key optionsObj Hkey.
  rewrite Hrecord in Hkey. destruct (Hcurrent key optionsObj Hkey) as [section Hsection].
  exists section. now rewrite (getValue_snapshot key s s' Hconfig).
Qed.

Lemma record_current_empty (s : state) : optionsRecord s = ∅ -> record_current s.
Proof. intros Hempty key optionsObj Hkey. now rewrite Hempty, lookup_empty in Hkey. Qed.

Lemma deliver_record_current (own : bool) (ids : list nat) (s : state) :
  record_current s -> record_current (deliver own ids s).
Proof.
  intros Hcurrent. unfold deliver.
  destruct (forkJoin (fetches s) ids); destruct own;
    first [ exact Hcurrent
          | now apply record_current_empty
          | now apply (record_current_frame s) ].
Qed.

Lemma serve_record_current (served : list (bool * list nat)) :
  forall s : state,
    record_current s ->
    record_current (fold_left (fun st sub => deliver (fst sub) (snd sub) st) served s).
Proof.
  induction served as [|[own ids] served IH]; intros s Hcurrent; [exact Hcurrent|].
  cbn [fold_left fst snd]. now apply IH, deliver_record_current.
Qed.

Lemma subscribe_record_current (own : bool) (ids : list nat) (s : state) :
  record_current s -> record_current (subscribe own ids s).
Proof.
  intros Hcurrent. pose proof (deliver_record_current own ids s Hcurrent) as Hdelivered.
  unfold subscribe. destruct (forkJoin (fetches s) ids); try exact Hdelivered.
  now apply (record_current_frame s).
Qed.

Lemma map_record_current (className : string) (optionsObj l : loc) (s s' : state) :
  map className optionsObj s = Some (l, s') ->
  record_current s -> record_current s'.
Proof.
  unfold map. intros Hmap Hcurrent.
  destruct (getNormalizedKey className) as [normalizedKey|]; [|discriminate Hmap].
  destruct (heap s !! optionsObj) as [options|]; [|discriminate Hmap].
  destruct (bool_decide _); [now injection Hmap as _ <-|].
  assert (Hkept : forall key obj,
             match optionsRecord s !! normalizedKey with
             | Some _ => delete normalizedKey (optionsRecord s)
             | None => optionsRecord s
             end !! key = Some obj ->
             optionsRecord s !! key = Some obj).
  { intros key obj. destruct (optionsRecord s !! normalizedKey); [|done].
    rewrite lookup_delete. now case_decide. }
  destruct (getValue normalizedKey s) as [| | | | |section] eqn:Hsection;
    [| | | | |destruct (mapOptionValues_throws options section); [discriminate Hmap|]];
    injection Hmap as _ <-; intros key obj; cbn [optionsRecord set_options];
    try (intros Hkey; apply Hkept in Hkey;
         destruct (Hcurrent key obj Hkey) as [found Hfound]; now exists found).
  destruct (decide (normalizedKey = key)) as [<-|Hne].
  - intros _. now exists section.
  - rewrite lookup_insert_ne by exact Hne. intros Hkey. apply Hkept in Hkey.
    destruct (Hcurrent key obj Hkey) as [found Hfound]. now exists found.
Qed.

Lemma step_record_current (s : state) (e : event) :
  record_current s -> record_current (step s e).
Proof.
  intros Hcurrent.
  destruct e as [reLoad|[config|ids|]|id outcome_now|className optionsObj]; cbn [step].
  - unfold load, loadInternal.
    destruct (completed s && negb reLoad); [exact Hcurrent|].
    set (s1 := if negb (loading s)
               then loadSubject_next {| status := Some StatusLoading |} (set_flags true false s)
               else s).
    assert (Hs1 : record_current s1).
    { unfold s1. destruct (negb (loading s)); [|exact Hcurrent].
      now apply (record_current_frame s). }
    pose proof (requestAll_same_service reLoad (providers s1) 0 s1) as Hframe.
    destruct (requestAll reLoad 0 (providers s1) s1) as [s2 members]. cbn [fst] in *.
    destruct Hframe as (_ & _ & _ & Hconfig & Hrecord & _).
    destruct (streams members) as [ids|]; cbn [fst].
    + apply subscribe_record_current. now apply (record_current_frame s1).
    + now apply (record_current_frame s1).
  - exact Hcurrent.
  - now apply subscribe_record_current.
  - exact Hcurrent.
  - unfold settle.
    destruct (fetches s !! id) as [[index [| |]]|]; try exact Hcurrent.
    apply serve_record_current. now apply (record_current_frame s).
  - destruct (map className optionsObj s) as [[l s']|] eqn:Hmap.
    + now apply (map_record_current className optionsObj l s s').
    + destruct (thrown_service className optionsObj s) as (_ & _ & _ & _ & Hc & _ & _ & _ & Hr).
      intros key obj Hkey. apply Hr in Hkey.
      destruct (Hcurrent key obj Hkey) as [section Hsection].
      exists section. now rewrite (getValue_snapshot key s _ Hc).
Qed.

(** Whatever happens to a service, a bound option stays on record only
    as long as the snapshot it was bound against: after any run, every
    recorded name leads to a section of the current snapshot. *)
Lemma record_always_current (configProviders : list ConfigProvider)
    (h : gmap loc OptionsLike) (events : list event) :
  record_current (run events (constructor configProviders h)).
Proof.
  assert (Hrun : forall (es : list event) (s : state),
             record_current s -> record_current (run es s)).
  { induction es as [|e es IH]; intros s Hcurrent; [exact Hcurrent|].
    cbn [run fold_left]. now apply IH, step_record_current. }
  apply Hrun, record_current_empty. reflexivity.
Qed.


(** * Further facts *)

Lemma mapOptionValues_loop_correct_witness :
  mapOptionValues_loop [("a", VStr "1"); ("b", VBool false)] [("b", VStr "ON"); ("a", VNum (Int 2))]
  = mapOptionValues [("a", VStr "1"); ("b", VBool false)] [("b", VStr "ON"); ("a", VNum (Int 2))].
Proof.
  apply (mapOptionValues_loop_correct [("a", VStr "1"); ("b", VBool false)]
           [("b", VStr "ON"); ("a", VNum (Int 2))]).
  apply (bool_decide_unpack _). vm_compute. exact I.
Defined.

Lemma getValue_resolved_witness :
  getValue "a:b" (with_snapshot [("a", VObj [("b", VObj [("c", VNum (Int 5))])])])
  = VObj [("c", VNum (Int 5))].
Proof.
  apply (getValue_resolved "a:b"
           (with_snapshot [("a", VObj [("b", VObj [("c", VNum (Int 5))])])])
           (VObj [("c", VNum (Int 5))])).
  reflexivity.
Defined.

Lemma getValue_missing_witness :
  getValue "a.x.c" (with_snapshot [("a", VObj [("b", VObj [("c", VNum (Int 5))])])]) = VNull.
Proof.
  apply (getValue_missing "a.x.c"
           (with_snapshot [("a", VObj [("b", VObj [("c", VNum (Int 5))])])])
           ["a"] ["c"] "x" [("b", VObj [("c", VNum (Int 5))])]); reflexivity.
Defined.

(** With no provider registered [forkJoin] completes without a value:
    neither callback runs, the load never completes and [loading] stays
    set. *)
Lemma load_without_providers (reload : bool) (h : gmap loc OptionsLike) :
  let s := fst (load reload (constructor [] h)) in
  loading s = true
  /\ completed s = false
  /\ subscribers s = []
  /\ loadEvents s = [{| status := Some StatusLoading |}]
  /\ fst (load reload s) = s.
Proof. destruct reload; repeat split. Qed.

(** Two calls of [load()] before the fetches settle share the fetches,
    and each of the two subscriptions sends [loaded] when they have all
    succeeded. *)
Lemma concurrent_loads_both_complete :
  loadEvents
    (run [CallLoad false; CallLoad false; Settle 0 (Some [("k", VNull)])]
         (constructor [{| name := "p" |}] ∅))
  = [{| status := Some StatusLoading |}; loaded_context; loaded_context].
Proof. reflexivity. Qed.

(** * More on the option binder *)

Section value_induction.

Variable P : value -> Prop.
Hypothesis Hundefined : P VUndefined.
Hypothesis Hnull : P VNull.
Hypothesis Hbool : forall b : bool, P (VBool b).
Hypothesis Hnum : forall n : number, P (VNum n).
Hypothesis Hstr : forall s : string, P (VStr s).
Hypothesis Hobj :
  forall fields : list (string * value),
    Forall (fun kv => P (snd kv)) fields -> P (VObj fields).

(** Induction on a value with the hypothesis available for every
    property value of an object. *)
Lemma value_nested_ind : forall v : value, P v.
Proof.
  fix IH 1. intros [| |b|n|s|fields].
  - exact Hundefined.
  - exact Hnull.
  - exact (Hbool b).
  - exact (Hnum n).
  - exact (Hstr s).
  - apply Hobj. induction fields as [|kv fields IHfields].
    + apply Forall_nil_2.
    + apply Forall_cons_2; [exact (IH (snd kv)) | exact IHfields].
Qed.

End value_induction.

Lemma typeof_mapOptionValue (target found : value) :
  is_nullish target = false ->
  is_nullish found = false ->
  typeof (mapOptionValue target found) = typeof target.
Proof.
  intros Htarget Hfound.
  destruct target as [| |b|n|s|options]; try discriminate Htarget;
    destruct found as [| |b'|n'|s'|section]; try discriminate Hfound;
    cbn -[existsb or_zero string_to_number stringify];
    repeat match goal with
      | |- context [if ?c then _ else _] => destruct c
      end;
    reflexivity.
Qed.

(** A field of the defaults that is not [null], bound to a section
    value that is not [null], keeps its type: a string stays a string, a
    boolean a boolean, a number a number and an object an object. *)
Theorem bind_keeps_field_types :
  forall (options : OptionsLike) (section : ConfigSection) (key : string)
         (target found : value),
    own options key = Some target ->
    own section key = Some found ->
    is_nullish target = false ->
    is_nullish found = false ->
    exists bound : value,
      own (mapOptionValues options section) key = Some bound
      /\ typeof bound = typeof target.
Proof.
  intros options section key target found Htarget Hfound Hnt Hnf.
  rewrite own_mapOptionValues, Htarget. unfold hasOwnProperty. cbn [get].
  rewrite Hfound. cbn [default from_option id].
  eexists. split; [reflexivity|]. now apply typeof_mapOptionValue.
Qed.

Lemma bind_keeps_field_types_witness :
  exists bound : value,
    own (mapOptionValues [("port", VNum (Int 80)); ("tls", VBool false)]
                         [("tls", VStr "On"); ("port", VStr "8080")]) "port"
    = Some bound
    /\ typeof bound = typeof (VNum (Int 80)).
Proof.
  apply (bind_keeps_field_types
           [("port", VNum (Int 80)); ("tls", VBool false)]
           [("tls", VStr "On"); ("port", VStr "8080")]
           "port" (VNum (Int 80)) (VStr "8080")); reflexivity.
Defined.

Lemma or_zero_int (z : Z) : or_zero (Int z) = Int z.
Proof.
  unfold or_zero. cbn. destruct (Z.eqb_spec z 0) as [->|]; reflexivity.
Qed.

Lemma own_of_member (fields : object) (key : string) (v : value) :
  NoDup (keys fields) -> (key, v) ∈ fields -> own fields key = Some v.
Proof.
  induction fields as [|[k w] fields IH]; intros Hnodup Hin.
  - now apply elem_of_nil in Hin.
  - cbn [keys List.map fst] in Hnodup. apply NoDup_cons in Hnodup as [Hfresh Hnodup].
    cbn [own]. apply elem_of_cons in Hin as [Heq|Hin].
    + injection Heq as -> ->. now rewrite String.eqb_refl.
    + destruct (String.eqb_spec k key) as [->|_]; [|now apply IH].
      exfalso. apply Hfresh. change (fst (key, v) ∈ keys fields).
      unfold keys. apply list_elem_of_In, in_map, list_elem_of_In, Hin.
Qed.

Lemma own_member (fields : object) (key : string) (v : value) :
  own fields key = Some v -> (key, v) ∈ fields.
Proof.
  induction fields as [|[k w] fields IH]; [discriminate|]. cbn [own].
  destruct (String.eqb_spec k key) as [->|_].
  - intros [= ->]. apply elem_of_cons. now left.
  - intros Hown. apply elem_of_cons. right. now apply IH.
Qed.

Lemma json_like_object (fields : object) :
  json_like (VObj fields) = true ->
  NoDup (keys fields) /\ Forall (fun kv => json_like (snd kv) = true) fields.
Proof.
  cbn [json_like]. intros H. apply andb_true_iff in H as [Hnodup Hall].
  split; [now apply bool_decide_eq_true in Hnodup|].
  apply Forall_forall. intros kv Hin.
  rewrite forallb_forall in Hall. apply Hall. now apply list_elem_of_In.
Qed.

Lemma json_like_own (fields : object) (key : string) (v : value) :
  json_like (VObj fields) = true -> own fields key = Some v -> json_like v = true.
Proof.
  intros Hjson Hown. apply json_like_object in Hjson as [_ Hall].
  rewrite Forall_forall in Hall. exact (Hall (key, v) (own_member _ _ _ Hown)).
Qed.

Lemma mapOptionValue_equal (target found : value) :
  strict_equal target found = true -> mapOptionValue target found = target.
Proof.
  intros Heq. destruct target, found; cbn in Heq; try discriminate Heq;
    cbn [mapOptionValue strict_equal]; try rewrite Heq; reflexivity.
Qed.

Lemma mapOptionValue_nullish_target (target found : value) :
  is_nullish target = true -> is_nullish found = false ->
  mapOptionValue target found = found.
Proof.
  intros Htarget Hfound.
  destruct target; try discriminate Htarget; destruct found; try discriminate Hfound;
    reflexivity.
Qed.

(** Bound to itself a JSON value is left as it is. *)
Lemma mapOptionValue_self : forall v : value, json_like v = true -> mapOptionValue v v = v.
Proof.
  induction v as [| |b|n|s|fields IH] using value_nested_ind; intros Hjson;
    try reflexivity.
  - apply mapOptionValue_equal. now destruct b.
  - destruct n as [z|]; [|discriminate Hjson].
    apply mapOptionValue_equal. cbn. apply Z.eqb_refl.
  - apply mapOptionValue_equal. cbn. apply String.eqb_refl.
  - rewrite mapOptionValue_nested. f_equal.
    apply json_like_object in Hjson as [Hnodup Hall].
    unfold mapOptionValues.
    etransitivity; [|apply List.map_id]. apply List.map_ext_in.
    intros [k v] Hin. apply list_elem_of_In in Hin.
    unfold hasOwnProperty. cbn [get].
    rewrite (own_of_member fields k v Hnodup Hin). cbn [default from_option id].
    f_equal. rewrite Forall_forall in IH, Hall.
    exact (IH (k, v) Hin (Hall (k, v) Hin)).
Qed.

Lemma mapOptionValue_twice :
  forall target found : value,
    json_like found = true ->
    mapOptionValue (mapOptionValue target found) found = mapOptionValue target found.
Proof.
  induction target as [| |b|n|s|options IH] using value_nested_ind; intros found Hjson.
  - destruct found as [| |b'|[z'|]|s'|section]; try discriminate Hjson; try reflexivity;
      rewrite (mapOptionValue_nullish_target VUndefined) by reflexivity;
      now apply mapOptionValue_self.
  - destruct found as [| |b'|[z'|]|s'|section]; try discriminate Hjson; try reflexivity;
      rewrite (mapOptionValue_nullish_target VNull) by reflexivity;
      now apply mapOptionValue_self.
  - destruct found as [| |b'|[z'|]|s'|section]; try discriminate Hjson; try reflexivity.
    cbn [mapOptionValue strict_equal is_nullish].
    destruct (Bool.eqb b b') eqn:Heq.
    + cbn [mapOptionValue strict_equal is_nullish]. now rewrite Heq.
    + apply mapOptionValue_equal. cbn. now destruct b'.
  - destruct found as [| |b'|[z'|]|s'|section]; try discriminate Hjson; try reflexivity.
    cbn [mapOptionValue strict_equal is_nullish Number].
    destruct (number_eqb n (Int z')) eqn:Heq.
    + cbn [mapOptionValue strict_equal is_nullish]. now rewrite Heq.
    + rewrite or_zero_int. apply mapOptionValue_equal. cbn. apply Z.eqb_refl.
  - destruct found as [| |b'|[z'|]|s'|section]; try discriminate Hjson; try reflexivity.
    cbn [mapOptionValue strict_equal is_nullish].
    destruct (String.eqb s s') eqn:Heq.
    + cbn [mapOptionValue strict_equal is_nullish]. now rewrite Heq.
    + apply mapOptionValue_equal. cbn. apply String.eqb_refl.
  - destruct found as [| |b'|[z'|]|s'|section]; try discriminate Hjson; try reflexivity.
    rewrite !mapOptionValue_nested. f_equal.
    unfold mapOptionValues. rewrite List.map_map. apply List.map_ext_in.
    intros [k v] Hin. apply list_elem_of_In in Hin. f_equal.
    unfold hasOwnProperty. cbn [get].
    destruct (own section k) as [found|] eqn:Hown; [|reflexivity].
    cbn [default from_option id].
    rewrite Forall_forall in IH. apply (IH (k, v) Hin).
    exact (json_like_own section k found Hjson Hown).
Qed.

(** Binding the same instance a second time against the same section
    changes nothing, when the section is a JSON value. *)
Theorem bind_twice_changes_nothing :
  forall (options : OptionsLike) (section : ConfigSection),
    json_like (VObj section) = true ->
    mapOptionValues (mapOptionValues options section) section
    = mapOptionValues options section.
Proof.
  intros options section Hjson.
  pose proof (mapOptionValue_twice (VObj options) (VObj section) Hjson) as Htwice.
  rewrite !mapOptionValue_nested in Htwice. now injection Htwice.
Qed.

Lemma bind_twice_changes_nothing_witness :
  mapOptionValues
    (mapOptionValues [("a", VNull); ("b", VStr "x"); ("c", VObj [("d", VBool false)])]
                     [("a", VObj [("n", VNum (Int 1))]); ("b", VNum (Int 2));
                      ("c", VObj [("d", VStr "on")])])
    [("a", VObj [("n", VNum (Int 1))]); ("b", VNum (Int 2)); ("c", VObj [("d", VStr "on")])]
  = mapOptionValues [("a", VNull); ("b", VStr "x"); ("c", VObj [("d", VBool false)])]
                    [("a", VObj [("n", VNum (Int 1))]); ("b", VNum (Int 2));
                     ("c", VObj [("d", VStr "on")])].
Proof.
  apply (bind_twice_changes_nothing
           [("a", VNull); ("b", VStr "x"); ("c", VObj [("d", VBool false)])]
           [("a", VObj [("n", VNum (Int 1))]); ("b", VNum (Int 2));
            ("c", VObj [("d", VStr "on")])]).
  vm_compute. reflexivity.
Defined.

(** * Where the binder throws *)

Lemma mapOptionValues_throws_at (options : OptionsLike) (section : ConfigSection)
    (key : string) (target : value) :
  own options key = Some target ->
  hasOwnProperty section key = true ->
  mapOptionValue_throws target (get (VObj section) key) = true ->
  mapOptionValues_throws options section = true.
Proof.
  intros Htarget Hfound Hthrows. unfold mapOptionValues_throws.
  apply existsb_exists. exists (key, target). split.
  - apply list_elem_of_In. now apply own_member.
  - now rewrite Hfound, Hthrows.
Qed.

(** C3, where the code departs from it: a numeric field of the defaults
    bound to a section value that is an object owning a property
    [toString] does not fall back to [0].  [Number] throws on that object,
    so [mapOptionValues] throws and with it [map]: nothing is returned and
    nothing is recorded under the normalized name.  So with the defaults
    [{x: 0}] and the section [{x: {toString: 1}}] the binding ends in a
    [TypeError]. *)
Theorem numeric_field_throws_on_object_with_toString :
  forall (options : OptionsLike) (section : ConfigSection) (key : string) (n : number)
         (fields : object),
    own options key = Some (VNum n) ->
    own section key = Some (VObj fields) ->
    hasOwnProperty fields "toString" = true ->
    mapOptionValues_throws options section = true
    /\ forall (s : state) (className normalizedKey : string) (optionsObj : loc),
         getNormalizedKey className = Some normalizedKey ->
         heap s !! optionsObj = Some options ->
         getValue normalizedKey s = VObj section ->
         optionsRecord s !! normalizedKey <> Some optionsObj ->
         map className optionsObj s = None
         /\ optionsRecord (step s (CallMap className optionsObj)) !! normalizedKey = None.
Proof.
  intros options section key n fields Htarget Hfound Hmember.
  assert (Hthrows : mapOptionValues_throws options section = true).
  { apply (mapOptionValues_throws_at options section key (VNum n) Htarget).
    - unfold hasOwnProperty. now rewrite Hfound.
    - cbn [get]. rewrite Hfound. cbn [default from_option id].
      cbn [mapOptionValue_throws strict_equal is_nullish Number_throws]. exact Hmember. }
  split; [exact Hthrows|].
  intros s className normalizedKey optionsObj Hkey Hobj Hsection Hmiss.
  cbn [step]. unfold map, thrown. rewrite Hkey, Hobj, Hsection, Hthrows.
  rewrite bool_decide_eq_false_2 by exact Hmiss. split; [reflexivity|].
  cbn [optionsRecord set_options].
  destruct (optionsRecord s !! normalizedKey) eqn:Hold; [apply lookup_delete_eq | exact Hold].
Qed.

Lemma numeric_field_throws_on_object_with_toString_witness :
  mapOptionValues_throws [("x", VNum (Int 0))] [("x", VObj [("toString", VNum (Int 1))])] = true
  /\ forall (s : state) (className normalizedKey : string) (optionsObj : loc),
       getNormalizedKey className = Some normalizedKey ->
       heap s !! optionsObj = Some [("x", VNum (Int 0))] ->
       getValue normalizedKey s = VObj [("x", VObj [("toString", VNum (Int 1))])] ->
       optionsRecord s !! normalizedKey <> Some optionsObj ->
       map className optionsObj s = None
       /\ optionsRecord (step s (CallMap className optionsObj)) !! normalizedKey = None.
Proof.
  apply (numeric_field_throws_on_object_with_toString
           [("x", VNum (Int 0))] [("x", VObj [("toString", VNum (Int 1))])]
           "x" (Int 0) [("toString", VNum (Int 1))]); reflexivity.
Defined.

(** * More on the path accessor *)

Lemma split_cons (key : string) : exists piece pieces, split key = piece :: pieces.
Proof.
  induction key as [|c key (piece & pieces & IH)]; cbn [split]; [eauto|].
  destruct (is_separator c); [eauto|]. rewrite IH. eauto.
Qed.

Lemma split_with_dots (key : string) : split (with_dots key) = split key.
Proof.
  induction key as [|c key IH]; [reflexivity|]. cbn [with_dots split].
  destruct (is_separator c) eqn:Hc.
  - change (is_separator "."%char) with true. cbn iota. now rewrite IH.
  - now rewrite Hc, IH.
Qed.

Lemma join_cons_char (c : ascii) (piece : string) (pieces : list string) :
  join "." (String c piece :: pieces) = String c (join "." (piece :: pieces)).
Proof. destruct pieces; reflexivity. Qed.

Lemma join_with_dots (key : string) : join "." (split key) = with_dots key.
Proof.
  induction key as [|c key IH]; [reflexivity|]. cbn [with_dots split].
  destruct (split_cons key) as (piece & pieces & Hsplit). rewrite Hsplit in *.
  destruct (is_separator c).
  - change (join "." (EmptyString :: piece :: pieces))
      with (String.append EmptyString (String.append "." (join "." (piece :: pieces)))).
    now rewrite IH.
  - now rewrite join_cons_char, IH.
Qed.

Lemma split_plain (key : string) : Forall (fun piece => plain_segment piece = true) (split key).
Proof.
  induction key as [|c key IH]; cbn [split].
  - now repeat constructor.
  - destruct (is_separator c) eqn:Hc.
    + now constructor.
    + destruct (split key) as [|piece pieces]; [now repeat constructor; cbn; rewrite Hc|].
      apply Forall_cons in IH as [Hpiece Hpieces]. constructor; [|exact Hpieces].
      cbn. now rewrite Hc, Hpiece.
Qed.

(** The segments [getValue] follows hold no delimiter; joined by dots
    they give the path back with each [:] written as a dot; so the two
    delimiters are interchangeable: a path and the same path written with
    dots only read the same value. *)
Theorem getValue_delimiters :
  forall (key : string) (s : state),
    Forall (fun piece => plain_segment piece = true) (split key)
    /\ join "." (split key) = with_dots key
    /\ getValue (with_dots key) s = getValue key s.
Proof.
  intros key s. split; [apply split_plain|]. split; [apply join_with_dots|].
  unfold getValue. now rewrite split_with_dots.
Qed.

Lemma split_append (front back : string) (c : ascii) :
  is_separator c = true ->
  split (front ++ String c back)%string = (split front ++ split back)%list.
Proof.
  intros Hc. induction front as [|d front IH].
  - change (EmptyString ++ String c back)%string with (String c back).
    cbn [split]. now rewrite Hc.
  - rewrite append_cons. cbn [split]. rewrite IH.
    destruct (is_separator d); [reflexivity|].
    destruct (split_cons front) as (piece & pieces & Hsplit). now rewrite Hsplit.
Qed.

(** Reading [a.b] is reading [b] in the section that [a] leads to. *)
Theorem getValue_composes :
  forall (front back : string) (c : ascii) (s s' : state) (section : ConfigSection),
    is_separator c = true ->
    getValue front s = VObj section ->
    cachedConfig s' = section ->
    getValue (front ++ String c back)%string s = getValue back s'.
Proof.
  intros front back c s s' section Hc Hfront Hsection. unfold getValue in *.
  rewrite split_append by exact Hc. rewrite fold_left_app, Hsection.
  destruct (fold_left _ (split front) (VObj (cachedConfig s)));
    try discriminate Hfront. now injection Hfront as ->.
Qed.

Lemma getValue_composes_witness :
  getValue ("db" ++ String ":" "pool.size")%string
           (with_snapshot [("db", VObj [("pool", VObj [("size", VNum (Int 4))])])])
  = getValue "pool.size" (with_snapshot [("pool", VObj [("size", VNum (Int 4))])]).
Proof.
  apply (getValue_composes "db" "pool.size" ":"
           (with_snapshot [("db", VObj [("pool", VObj [("size", VNum (Int 4))])])])
           (with_snapshot [("pool", VObj [("size", VNum (Int 4))])])
           [("pool", VObj [("size", VNum (Int 4))])]); reflexivity.
Defined.

(** A number other than [0], or [true], reached before the last segment
    has no property of its own to read: unless the next segment names a
    member of its prototype, the result is [null]. *)
Theorem getValue_through_truthy_scalar :
  forall (key : string) (s : state) (front rest : list string) (segment : string)
         (reached : value),
    split key = (front ++ segment :: rest)%list ->
    resolve (VObj (cachedConfig s)) front = Some reached ->
    truthy reached = true ->
    typeof reached = TNumber \/ typeof reached = TBoolean ->
    inherited_by reached segment = false ->
    getValue key s = VNull.
Proof.
  intros key s front rest segment reached Hsplit Hfront Htruthy Htype _. unfold getValue.
  rewrite Hsplit, (traverse_resolved front _ _ _ Hfront).
  cbn [fold_left]. rewrite Htruthy.
  replace (get reached segment) with VUndefined
    by (destruct reached; destruct Htype as [H|H]; try discriminate H; reflexivity).
  now rewrite traverse_falsy.
Qed.

Lemma getValue_through_truthy_scalar_witness :
  getValue "port.value" (with_snapshot [("port", VNum (Int 80))]) = VNull.
Proof.
  apply (getValue_through_truthy_scalar "port.value"
           (with_snapshot [("port", VNum (Int 80))]) ["port"] [] "value" (VNum (Int 80)));
    try reflexivity.
  now left.
Defined.

(** * More on [map] *)

Lemma getNormalizedKey_throws (className : string) :
  getNormalizedKey className = None <-> className = EmptyString.
Proof.
  split; [|now intros ->].
  unfold getNormalizedKey.
  destruct ((String.length OptionsSuffix <? String.length className)%nat
            && endsWith className OptionsSuffix) eqn:Hcond.
  - apply andb_true_iff in Hcond as [Hlen _]. apply Nat.ltb_lt in Hlen.
    destruct className as [|c rest]; [cbn in Hlen; lia|].
    unfold substr. cbn [String.length] in *.
    destruct (S (String.length rest) - String.length OptionsSuffix) as [|k] eqn:Hk;
      [cbn in Hk, Hlen; lia|].
    cbn [substring]. discriminate.
  - destruct className; [reflexivity | discriminate].
Qed.

(** For the name of a class, which holds no delimiter of paths, [map]
    throws in two cases and in no other: for a class without a name, and
    when the record does not answer the call and [mapOptionValues] throws
    on the section the name leads to. *)
Theorem map_throws_exactly_when :
  forall (className : string) (optionsObj : loc) (s : state) (options : OptionsLike),
    plain_segment className = true ->
    heap s !! optionsObj = Some options ->
    (map className optionsObj s = None
     <-> className = EmptyString
         \/ exists (normalizedKey : string) (section : ConfigSection),
              getNormalizedKey className = Some normalizedKey
              /\ optionsRecord s !! normalizedKey <> Some optionsObj
              /\ getValue normalizedKey s = VObj section
              /\ mapOptionValues_throws options section = true).
Proof.
  intros className optionsObj s options _ Hoptions.
  rewrite <- getNormalizedKey_throws. unfold map. rewrite Hoptions.
  destruct (getNormalizedKey className) as [normalizedKey|].
  2:{ split; [now left | reflexivity]. }
  destruct (bool_decide (optionsRecord s !! normalizedKey = Some optionsObj)) eqn:Hcached.
  - split; [discriminate|]. intros [Hnone|(key & section & [= <-] & Hmiss & _)].
    + discriminate Hnone.
    + apply bool_decide_eq_true in Hcached. contradiction.
  - apply bool_decide_eq_false in Hcached.
    destruct (getValue normalizedKey s) as [| | | | |section] eqn:Hsection;
      try (split; [discriminate|];
           intros [Hnone|(key & found & [= <-] & _ & Hfound & _)];
           [discriminate Hnone | congruence]).
    destruct (mapOptionValues_throws options section) eqn:Hthrows.
    + split; [|reflexivity]. intros _. right. now exists normalizedKey, section.
    + split; [discriminate|].
      intros [Hnone|(key & found & [= <-] & _ & Hfound & Hfails)]; [discriminate Hnone|].
      congruence.
Qed.

Lemma map_throws_exactly_when_witness :
  map "FooOptions" 0
      (set_config [("foo", VObj [("n", VObj [("toString", VNum (Int 1))])])] ∅
                  (constructor [] {[ 0 := [("n", VNum (Int 0))] ]}))
  = None
  <-> "FooOptions" = EmptyString
      \/ exists (normalizedKey : string) (section : ConfigSection),
           getNormalizedKey "FooOptions" = Some normalizedKey
           /\ optionsRecord
                (set_config [("foo", VObj [("n", VObj [("toString", VNum (Int 1))])])] ∅
                            (constructor [] {[ 0 := [("n", VNum (Int 0))] ]}))
              !! normalizedKey <> Some 0
           /\ getValue normalizedKey
                (set_config [("foo", VObj [("n", VObj [("toString", VNum (Int 1))])])] ∅
                            (constructor [] {[ 0 := [("n", VNum (Int 0))] ]}))
              = VObj section
           /\ mapOptionValues_throws [("n", VNum (Int 0))] section = true.
Proof.
  apply (map_throws_exactly_when "FooOptions" 0
           (set_config [("foo", VObj [("n", VObj [("toString", VNum (Int 1))])])] ∅
                       (constructor [] {[ 0 := [("n", VNum (Int 0))] ]}))
           [("n", VNum (Int 0))]); reflexivity.
Defined.

(** [map] starts no load and leaves the snapshot, the flags, the status
    stream, the fetches and the providers alone; of the record of bound
    options only the entry of the normalized name can change. *)
Theorem map_changes_one_entry_only :
  forall (className normalizedKey : string) (optionsObj returned : loc) (s s' : state),
    map className optionsObj s = Some (returned, s') ->
    getNormalizedKey className = Some normalizedKey ->
    returned = optionsObj
    /\ sortedConfigProviders s' = sortedConfigProviders s
    /\ fetchRequests s' = fetchRequests s
    /\ loading s' = loading s
    /\ completed s' = completed s
    /\ cachedConfig s' = cachedConfig s
    /\ loadEvents s' = loadEvents s
    /\ fetches s' = fetches s
    /\ subscribers s' = subscribers s
    /\ (forall other : string,
           other <> normalizedKey -> optionsRecord s' !! other = optionsRecord s !! other).
Proof.
  intros className normalizedKey optionsObj returned s s' Hmap Hkey.
  unfold map in Hmap. rewrite Hkey in Hmap.
  destruct (heap s !! optionsObj) as [options|]; [|discriminate Hmap].
  destruct (bool_decide _); [injection Hmap as <- <-; now repeat split|].
  assert (Hkept : forall other : string,
             other <> normalizedKey ->
             match optionsRecord s !! normalizedKey with
             | Some _ => delete normalizedKey (optionsRecord s)
             | None => optionsRecord s
             end !! other = optionsRecord s !! other).
  { intros other Hother. destruct (optionsRecord s !! normalizedKey); [|reflexivity].
    now apply lookup_delete_ne. }
  destruct (getValue normalizedKey s) as [| | | | |section];
    [| | | | |destruct (mapOptionValues_throws options section); [discriminate Hmap|]];
    injection Hmap as <- <-;
    cbn [sortedConfigProviders fetchRequests loading completed cachedConfig loadEvents
         fetches subscribers optionsRecord set_options];
    repeat split; try exact Hkept.
  intros other Hother. rewrite lookup_insert_ne by congruence. now apply Hkept.
Qed.

Lemma map_changes_one_entry_only_witness :
  0 = 0
  /\ sortedConfigProviders (step bound_state (CallMap "FooOptions" 0))
     = sortedConfigProviders bound_state
  /\ fetchRequests (step bound_state (CallMap "FooOptions" 0)) = fetchRequests bound_state
  /\ loading (step bound_state (CallMap "FooOptions" 0)) = loading bound_state
  /\ completed (step bound_state (CallMap "FooOptions" 0)) = completed bound_state
  /\ cachedConfig (step bound_state (CallMap "FooOptions" 0)) = cachedConfig bound_state
  /\ loadEvents (step bound_state (CallMap "FooOptions" 0)) = loadEvents bound_state
  /\ fetches (step bound_state (CallMap "FooOptions" 0)) = fetches bound_state
  /\ subscribers (step bound_state (CallMap "FooOptions" 0)) = subscribers bound_state
  /\ (forall other : string,
         other <> "foo" ->
         optionsRecord (step bound_state (CallMap "FooOptions" 0)) !! other
         = optionsRecord bound_state !! other).
Proof.
  apply (map_changes_one_entry_only "FooOptions" "foo" 0 0 bound_state
           (step bound_state (CallMap "FooOptions" 0))); reflexivity.
Defined.

(** * More on loading *)

Lemma deliver_frame (own : bool) (ids : list nat) (s : state) :
  sortedConfigProviders (deliver own ids s) = sortedConfigProviders s
  /\ fetchRequests (deliver own ids s) = fetchRequests s
  /\ subscribers (deliver own ids s) = subscribers s
  /\ heap (deliver own ids s) = heap s.
Proof. unfold deliver. destruct (forkJoin (fetches s) ids), own; now repeat split. Qed.

Lemma serve_frame (served : list (bool * list nat)) :
  forall s : state,
    let s' := fold_left (fun st sub => deliver (fst sub) (snd sub) st) served s in
    sortedConfigProviders s' = sortedConfigProviders s
    /\ fetchRequests s' = fetchRequests s
    /\ fetches s' = fetches s
    /\ subscribers s' = subscribers s
    /\ heap s' = heap s.
Proof.
  induction served as [|[own ids] served IH]; intros s; [now repeat split|].
  cbn [fold_left fst snd]. destruct (IH (deliver own ids s)) as (Hp & Hr & Hf & Hs & Hh).
  destruct (deliver_frame own ids s) as (Hp1 & Hr1 & Hs1 & Hh1).
  rewrite deliver_fetches in Hf. repeat split; congruence.
Qed.

Lemma subscribe_frame (own : bool) (ids : list nat) (s : state) :
  sortedConfigProviders (subscribe own ids s) = sortedConfigProviders s
  /\ fetchRequests (subscribe own ids s) = fetchRequests s
  /\ heap (subscribe own ids s) = heap s.
Proof.
  destruct (deliver_frame own ids s) as (Hp & Hr & _ & Hh).
  unfold subscribe. destruct (forkJoin (fetches s) ids); now repeat split.
Qed.

Lemma requestAll_length (reload : bool) (ps : list ConfigProvider) :
  forall (index : nat) (s : state),
    length (snd (requestAll reload index ps s)) = length ps.
Proof.
  induction ps as [|p ps IH]; intros index s; [reflexivity|]. cbn [requestAll].
  destruct (request reload index p s) as [s1 id]. specialize (IH (S index) s1).
  destruct (requestAll reload (S index) ps s1) as [s2 ids]. cbn [snd length] in *.
  now rewrite IH.
Qed.

Lemma read_insert (requests : gmap string nat) (loaderName n : string) (id : nat) :
  is_Some (read requests n) -> is_Some (read (<[loaderName := id]> requests) n).
Proof.
  intros Hn. unfold read in *. destruct (decide (loaderName = n)) as [->|Hne].
  - rewrite lookup_insert_eq. eauto.
  - now rewrite lookup_insert_ne.
Qed.

Lemma request_records (reload : bool) (index : nat) (p : ConfigProvider) (s : state) :
  is_Some (read (fetchRequests (fst (request reload index p s))) (name p))
  /\ forall n : string,
       is_Some (read (fetchRequests s) n) ->
       is_Some (read (fetchRequests (fst (request reload index p s))) n).
Proof.
  unfold request.
  destruct (if reload then None else read (fetchRequests s) (name p)) as [found|] eqn:Hfound.
  - destruct reload; [discriminate Hfound|]. cbn [fst]. split; [eauto | auto].
  - cbn [fst fetchRequests set_requests]. split.
    + unfold read. rewrite lookup_insert_eq. eauto.
    + intros n Hn. now apply read_insert.
Qed.

Lemma requestAll_records (reload : bool) (ps : list ConfigProvider) :
  forall (index : nat) (s : state),
    (forall p : ConfigProvider,
        p ∈ ps -> is_Some (read (fetchRequests (fst (requestAll reload index ps s))) (name p)))
    /\ (forall n : string,
           is_Some (read (fetchRequests s) n) ->
           is_Some (read (fetchRequests (fst (requestAll reload index ps s))) n)).
Proof.
  induction ps as [|p ps IH]; intros index s.
  - split; [|auto]. intros p Hp. now apply elem_of_nil in Hp.
  - cbn [requestAll].
    destruct (request_records reload index p s) as [Hhead Hmono].
    destruct (request reload index p s) as [s1 id]. cbn [fst] in *.
    destruct (IH (S index) s1) as [Hrest Hmono'].
    destruct (requestAll reload (S index) ps s1) as [s2 ids]. cbn [fst] in *.
    split; [|auto].
    intros q Hq. apply elem_of_cons in Hq as [->|Hq]; auto.
Qed.

Lemma step_providers (s : state) (e : event) :
  sortedConfigProviders (step s e) = sortedConfigProviders s.
Proof.
  destruct e as [reLoad|[config|ids|]|id outcome_now|className optionsObj]; cbn [step].
  - unfold load, loadInternal. destruct (completed s && negb reLoad); [reflexivity|].
    set (s1 := if negb (loading s) then _ else s).
    assert (Hs1 : sortedConfigProviders s1 = sortedConfigProviders s)
      by (unfold s1; now destruct (negb (loading s))).
    pose proof (requestAll_same_service reLoad (providers s1) 0 s1) as (Hp & _).
    destruct (requestAll reLoad 0 (providers s1) s1) as [s2 members]. cbn [fst] in *.
    destruct (streams members) as [ids|]; cbn [fst].
    + destruct (subscribe_frame true ids s2) as (Hp2 & _). congruence.
    + cbn. congruence.
  - reflexivity.
  - apply subscribe_frame.
  - reflexivity.
  - unfold settle. destruct (fetches s !! id) as [[index [| |]]|]; try reflexivity.
    match goal with
    | |- sortedConfigProviders (fold_left _ ?served ?s0) = _ =>
        destruct (serve_frame served s0) as (Hp & _)
    end.
    exact Hp.
  - destruct (map className optionsObj s) as [[l s']|] eqn:Hmap;
      [|apply thrown_service].
    unfold map in Hmap.
    destruct (getNormalizedKey className); [|discriminate Hmap].
    destruct (heap s !! optionsObj); [|discriminate Hmap].
    destruct (bool_decide _); [now injection Hmap as _ <-|].
    destruct (getValue _ s); try (now injection Hmap as _ <-).
    destruct (mapOptionValues_throws _ _); [discriminate Hmap | now injection Hmap as _ <-].
Qed.

Lemma step_keeps_record (s : state) (e : event) (n : string) :
  is_Some (read (fetchRequests s) n) -> is_Some (read (fetchRequests (step s e)) n).
Proof.
  intros Hn.
  destruct e as [reLoad|[config|ids|]|id outcome_now|className optionsObj]; cbn [step].
  - unfold load, loadInternal. destruct (completed s && negb reLoad); [exact Hn|].
    set (s1 := if negb (loading s) then _ else s).
    assert (Hs1 : fetchRequests s1 = fetchRequests s)
      by (unfold s1; now destruct (negb (loading s))).
    destruct (requestAll_records reLoad (providers s1) 0 s1) as [_ Hmono].
    destruct (requestAll reLoad 0 (providers s1) s1) as [s2 members]. cbn [fst] in *.
    destruct (streams members) as [ids|]; cbn [fst].
    + destruct (subscribe_frame true ids s2) as (_ & Hr & _). rewrite Hr.
      apply Hmono. now rewrite Hs1.
    + cbn [fetchRequests on_error set_flags]. apply Hmono. now rewrite Hs1.
  - exact Hn.
  - destruct (subscribe_frame false ids s) as (_ & Hr & _). now rewrite Hr.
  - exact Hn.
  - unfold settle. destruct (fetches s !! id) as [[index [| |]]|]; try exact Hn.
    match goal with
    | |- is_Some (read (fetchRequests (fold_left _ ?served ?s0)) _) =>
        destruct (serve_frame served s0) as (_ & Hr & _)
    end.
    now rewrite Hr.
  - destruct (map className optionsObj s) as [[l s']|] eqn:Hmap.
    2:{ destruct (thrown_service className optionsObj s) as (_ & Hr & _). now rewrite Hr. }
    unfold map in Hmap.
    destruct (getNormalizedKey className); [|discriminate Hmap].
    destruct (heap s !! optionsObj); [|discriminate Hmap].
    destruct (bool_decide _); [now injection Hmap as _ <-|].
    destruct (getValue _ s); try (now injection Hmap as _ <-).
    destruct (mapOptionValues_throws _ _); [discriminate Hmap | now injection Hmap as _ <-].
Qed.

Lemma run_names_on_record (events : list event) :
  forall s : state, names_on_record s -> names_on_record (run events s).
Proof.
  induction events as [|e events IH]; intros s Hs; [exact Hs|].
  cbn [run fold_left]. apply IH. intros p Hp. unfold providers in Hp.
  rewrite step_providers in Hp. now apply step_keeps_record, Hs.
Qed.

Lemma load_names_on_record (reload : bool) (s : state) :
  completed s = false \/ reload = true ->
  names_on_record (fst (load reload s)).
Proof.
  intros Hslow. pose proof (step_providers s (CallLoad reload)) as Hproviders.
  cbn [step] in Hproviders. intros p Hp. unfold providers in Hp. rewrite Hproviders in Hp.
  unfold load, loadInternal.
  replace (completed s && negb reload) with false
    by (destruct Hslow as [-> | ->]; [reflexivity | now rewrite andb_false_r]).
  set (s1 := if negb (loading s) then _ else s).
  assert (Hs1 : sortedConfigProviders s1 = sortedConfigProviders s)
    by (unfold s1; now destruct (negb (loading s))).
  destruct (requestAll_records reload (providers s1) 0 s1) as [Hall _].
  destruct (requestAll reload 0 (providers s1) s1) as [s2 members]. cbn [fst] in *.
  destruct (streams members) as [ids|]; cbn [fst].
  - destruct (subscribe_frame true ids s2) as (_ & Hr & _). rewrite Hr.
    apply Hall. unfold providers. now rewrite Hs1.
  - cbn [fetchRequests on_error set_flags]. apply Hall. unfold providers. now rewrite Hs1.
Qed.

(** Once [load] has gone past its fast path, whatever happens
    afterwards, [load(false)] calls [load()] of no provider: the fetch on
    record under each name is joined, whether it is pending, has
    succeeded or has failed.  Only [load(true)] fetches again. *)
Theorem load_false_fetches_once_only :
  forall (s : state) (reload : bool) (events : list event),
    completed s = false \/ reload = true ->
    let s2 := run events (fst (load reload s)) in
    fetches (fst (load false s2)) = fetches s2
    /\ forall index : nat, invocations index (fst (load false s2)) = invocations index s2.
Proof.
  intros s reload events Hslow s2.
  assert (Hfetches : fetches (fst (load false s2)) = fetches s2).
  { pose proof (run_names_on_record events _ (load_names_on_record reload s Hslow))
      as Hrecord.
    fold s2 in Hrecord. unfold load, loadInternal.
    destruct (completed s2 && negb false); [reflexivity|].
    set (s1 := if negb (loading s2) then _ else s2).
    assert (Hs1 : fetches s1 = fetches s2 /\ fetchRequests s1 = fetchRequests s2
                  /\ providers s1 = providers s2)
      by (unfold s1; now destruct (negb (loading s2))).
    destruct Hs1 as (Hf1 & Hr1 & Hp1).
    pose proof (requestAll_cached (providers s1) 0 s1) as Hcached.
    destruct (requestAll false 0 (providers s1) s1) as [s3 members]. cbn [fst] in *.
    assert (Hsame : s3 = s1).
    { apply Hcached. intros p Hp. rewrite Hr1. apply Hrecord. now rewrite <- Hp1. }
    destruct (streams members) as [ids|]; cbn [fst].
    - now rewrite subscribe_fetches, Hsame.
    - cbn [fetches on_error set_flags]. now rewrite Hsame. }
  split; [exact Hfetches|]. intros index. unfold invocations. now rewrite Hfetches.
Qed.

Lemma load_false_fetches_once_only_witness :
  fetches (fst (load false (run [Settle 0 None]
                                (fst (load false (constructor [{| name := "p" |}] ∅))))))
  = fetches (run [Settle 0 None] (fst (load false (constructor [{| name := "p" |}] ∅))))
  /\ forall index : nat,
       invocations index
         (fst (load false (run [Settle 0 None]
                               (fst (load false (constructor [{| name := "p" |}] ∅))))))
       = invocations index
           (run [Settle 0 None] (fst (load false (constructor [{| name := "p" |}] ∅)))).
Proof.
  apply (load_false_fetches_once_only (constructor [{| name := "p" |}] ∅) false
           [Settle 0 None]).
  now left.
Defined.

Lemma outcome_at_appended (fs : list fetch) (index count id : nat) :
  length fs <= id ->
  outcome_at (fs ++ issued index count) id = Pending.
Proof.
  intros Hid. unfold outcome_at, issued.
  rewrite lookup_app_r by exact Hid. rewrite list_lookup_fmap.
  now destruct (seq index count !! (id - length fs)).
Qed.

Lemma forkJoin_appended (fs : list fetch) (index count : nat) :
  forkJoin (fs ++ issued index count) (seq (length fs) count)
  = match count with 0 => Complete | S _ => Waiting end.
Proof.
  destruct count as [|count]; [reflexivity|].
  apply (forkJoin_Waiting _ _ (length fs)).
  - apply Forall_forall. intros id Hid. apply elem_of_seq in Hid.
    rewrite outcome_at_appended by lia. discriminate.
  - apply elem_of_seq. lia.
  - now apply outcome_at_appended.
Qed.

Lemma invocations_app (index : nat) (fs more : list fetch) :
  length (List.filter (fun f => (source f =? index)%nat) (fs ++ more))
  = length (List.filter (fun f => (source f =? index)%nat) fs)
    + length (List.filter (fun f => (source f =? index)%nat) more).
Proof. now rewrite List.filter_app, length_app. Qed.

(** With [reload] set every entry of [fetchRequests] that changes
    points to one of the fetches just issued, and every provider's name
    has such an entry. *)
Lemma requestAll_reload_records (ps : list ConfigProvider) :
  forall (index : nat) (s : state),
    let s' := fst (requestAll true index ps s) in
    (forall (n : string) (id : nat),
        fetchRequests s !! n = Some id ->
        exists id' : nat,
          fetchRequests s' !! n = Some id'
          /\ (id' = id \/ length (fetches s) <= id' < length (fetches s) + length ps))
    /\ (forall p : ConfigProvider,
           p ∈ ps ->
           exists id : nat,
             fetchRequests s' !! name p = Some id
             /\ length (fetches s) <= id < length (fetches s) + length ps).
Proof.
  induction ps as [|p ps IH]; intros index s.
  - cbn. split; [eauto|]. intros p Hp. now apply elem_of_nil in Hp.
  - cbn [requestAll]. rewrite request_fresh by now left.
    set (s1 := set_requests _ _ s).
    destruct (IH (S index) s1) as [Hmono Hrest].
    destruct (requestAll true (S index) ps s1) as [s2 ids]. cbn [fst length] in *.
    assert (Hlen : length (fetches s1) = S (length (fetches s)))
      by (unfold s1; cbn; rewrite length_app; cbn; lia).
    rewrite Hlen in *.
    assert (Hhead : exists id : nat,
               fetchRequests s2 !! name p = Some id
               /\ length (fetches s) <= id < length (fetches s) + S (length ps)).
    { destruct (Hmono (name p) (length (fetches s))) as (id' & Hid' & Hrange).
      - unfold s1. cbn. apply lookup_insert_eq.
      - exists id'. split; [exact Hid'|]. lia. }
    split.
    + intros n id Hn. destruct (decide (name p = n)) as [<-|Hne].
      * destruct Hhead as (id' & Hid' & Hrange). exists id'. split; [exact Hid'|]. now right.
      * destruct (Hmono n id) as (id' & Hid' & Hrange).
        { unfold s1. cbn. now rewrite lookup_insert_ne. }
        exists id'. split; [exact Hid'|]. lia.
    + intros q Hq. apply elem_of_cons in Hq as [->|Hq]; [exact Hhead|].
      destruct (Hrest q Hq) as (id & Hid & Hrange). exists id. split; [exact Hid|]. lia.
Qed.

(** A forced reload calls [load()] of every registered provider once
    more, also of providers that share a name, joins exactly the fetches
    it has issued, and leaves on record under every provider's name one of
    them, still pending. *)
Theorem forced_reload_fetches_every_provider :
  forall s : state,
    fetches (fst (load true s)) = fetches s ++ issued 0 (length (providers s))
    /\ snd (load true s) = ForkJoin (seq (length (fetches s)) (length (providers s)))
    /\ (forall index : nat,
           index < length (providers s) ->
           invocations index (fst (load true s)) = S (invocations index s))
    /\ (forall p : ConfigProvider,
           p ∈ providers s ->
           exists id : nat,
             fetchRequests (fst (load true s)) !! name p = Some id
             /\ length (fetches s) <= id
             /\ outcome_at (fetches (fst (load true s))) id = Pending).
Proof.
  intros s. unfold load, loadInternal. rewrite andb_false_r.
  set (s1 := if negb (loading s) then _ else s).
  assert (Hs1 : fetches s1 = fetches s /\ providers s1 = providers s)
    by (unfold s1; now destruct (negb (loading s))).
  destruct Hs1 as (Hf1 & Hp1).
  destruct (requestAll_fresh true (providers s1) 0 s1 (or_introl eq_refl))
    as (s2 & Hall & Hfetches & _ & _).
  pose proof (requestAll_reload_records (providers s1) 0 s1) as [_ Hrecorded].
  rewrite Hall in *. rewrite streams_fetches. cbn [fst snd] in *.
  rewrite Hf1, Hp1 in *.
  assert (Hsub : fetches (subscribe true (seq (length (fetches s)) (length (providers s))) s2)
                 = fetches s ++ issued 0 (length (providers s)))
    by now rewrite subscribe_fetches.
  split; [exact Hsub|]. split; [reflexivity|]. split.
  - intros index Hindex. unfold invocations. rewrite Hsub, invocations_app.
    rewrite issued_invocations. cbn [Nat.leb andb Nat.add].
    replace (index <? length (providers s))%nat with true
      by (symmetry; now apply Nat.ltb_lt).
    lia.
  - intros p Hp. destruct (Hrecorded p Hp) as (id & Hid & Hrange).
    exists id. destruct (subscribe_frame true (seq (length (fetches s)) (length (providers s))) s2)
      as (_ & Hr & _).
    rewrite Hr, Hsub. repeat split; [exact Hid | lia |].
    apply outcome_at_appended. lia.
Qed.

(** A forced reload answers nothing at once: while its fetches are
    pending the snapshot, every [getValue], the record of bound options
    and the instances are as before, [completed] is false and [loading]
    is set; [loading] is sent unless a load was under way. *)
Theorem forced_reload_keeps_snapshot :
  forall s : state,
    loading s = false \/ completed s = false ->
    let s' := fst (load true s) in
    cachedConfig s' = cachedConfig s
    /\ (forall key : string, getValue key s' = getValue key s)
    /\ optionsRecord s' = optionsRecord s
    /\ heap s' = heap s
    /\ completed s' = false
    /\ loading s' = true
    /\ loadEvents s' = loadEvents s ++ (if loading s then [] else [loading_context]).
Proof.
  intros s Hflags s'. subst s'. unfold load, loadInternal. rewrite andb_false_r.
  set (s1 := if negb (loading s) then _ else s).
  assert (Hs1 : fetches s1 = fetches s /\ providers s1 = providers s
                /\ cachedConfig s1 = cachedConfig s /\ optionsRecord s1 = optionsRecord s
                /\ heap s1 = heap s /\ completed s1 = false /\ loading s1 = true
                /\ loadEvents s1 = loadEvents s ++ (if loading s then [] else [loading_context])).
  { unfold s1. destruct (loading s) eqn:Hloading; cbn; repeat split;
      try (now rewrite app_nil_r); try exact Hloading.
    destruct Hflags as [H|H]; [discriminate H | exact H]. }
  destruct Hs1 as (Hf1 & Hp1 & Hc1 & Ho1 & Hh1 & Hd1 & Hl1 & He1).
  destruct (requestAll_fresh true (providers s1) 0 s1 (or_introl eq_refl))
    as (s2 & Hall & Hfetches & _ & _).
  pose proof (requestAll_same_service true (providers s1) 0 s1) as Hframe.
  rewrite Hall in *. rewrite streams_fetches. cbn [fst snd] in *.
  destruct Hframe as (_ & Hl & Hd & Hc & Ho & He & _ & Hh).
  assert (Hsame : cachedConfig (subscribe true (seq (length (fetches s1)) (length (providers s1))) s2)
                  = cachedConfig s2
                  /\ optionsRecord (subscribe true (seq (length (fetches s1)) (length (providers s1))) s2)
                     = optionsRecord s2
                  /\ heap (subscribe true (seq (length (fetches s1)) (length (providers s1))) s2)
                     = heap s2
                  /\ completed (subscribe true (seq (length (fetches s1)) (length (providers s1))) s2)
                     = completed s2
                  /\ loading (subscribe true (seq (length (fetches s1)) (length (providers s1))) s2)
                     = loading s2
                  /\ loadEvents (subscribe true (seq (length (fetches s1)) (length (providers s1))) s2)
                     = loadEvents s2).
  { unfold subscribe, deliver. rewrite Hfetches, forkJoin_appended.
    destruct (length (providers s1)); now repeat split. }
  destruct Hsame as (Hc' & Ho' & Hh' & Hd' & Hl' & He').
  repeat split; try congruence.
  intros key. apply getValue_snapshot. congruence.
Qed.

Lemma forced_reload_keeps_snapshot_witness :
  cachedConfig (fst (load true loaded_state)) = cachedConfig loaded_state
  /\ (forall key : string,
         getValue key (fst (load true loaded_state)) = getValue key loaded_state)
  /\ optionsRecord (fst (load true loaded_state)) = optionsRecord loaded_state
  /\ heap (fst (load true loaded_state)) = heap loaded_state
  /\ completed (fst (load true loaded_state)) = false
  /\ loading (fst (load true loaded_state)) = true
  /\ loadEvents (fst (load true loaded_state))
     = loadEvents loaded_state ++ (if loading loaded_state then [] else [loading_context]).
Proof.
  apply (forced_reload_keeps_snapshot loaded_state). now left.
Defined.

(** * A provider named like a member of [Object.prototype] *)

Lemma request_keeps_inherited (index : nat) (q : ConfigProvider) (s : state) (n : string) :
  inherited n = true ->
  fetchRequests s !! n = None ->
  fetchRequests (fst (request false index q s)) !! n = None
  /\ (name q = n -> request false index q s = (s, Inherited)).
Proof.
  intros Hinherited Hnone. unfold request, read.
  destruct (fetchRequests s !! name q) as [id|] eqn:Hq.
  - split; [exact Hnone|]. intros Heq. rewrite Heq, Hnone in Hq. discriminate Hq.
  - destruct (inherited (name q)) eqn:Hown.
    + split; [exact Hnone | reflexivity].
    + split.
      * cbn [fst fetchRequests set_requests]. rewrite lookup_insert_ne; [exact Hnone|].
        intros Heq. rewrite Heq, Hinherited in Hown. discriminate Hown.
      * intros Heq. rewrite Heq, Hinherited in Hown. discriminate Hown.
Qed.

Lemma requestAll_keeps_inherited (ps : list ConfigProvider) (n : string) :
  inherited n = true ->
  forall (index : nat) (s : state),
    fetchRequests s !! n = None ->
    fetchRequests (fst (requestAll false index ps s)) !! n = None
    /\ ((exists p : ConfigProvider, p ∈ ps /\ name p = n) ->
        streams (snd (requestAll false index ps s)) = None).
Proof.
  intros Hinherited. induction ps as [|q ps IH]; intros index s Hnone.
  - split; [exact Hnone|]. intros (p & Hp & _). now apply elem_of_nil in Hp.
  - cbn [requestAll].
    destruct (request_keeps_inherited index q s n Hinherited Hnone) as [Hkept Hhead].
    destruct (request false index q s) as [s1 found]. cbn [fst] in Hkept.
    destruct (IH (S index) s1 Hkept) as [Hrest Htail].
    destruct (requestAll false (S index) ps s1) as [s2 members]. cbn [fst snd] in *.
    split; [exact Hrest|].
    intros (p & Hp & Hname). unfold streams. cbn [mapM].
    apply elem_of_cons in Hp as [->|Hp].
    + specialize (Hhead Hname). injection Hhead as _ ->. reflexivity.
    + fold (streams members). rewrite Htail by eauto.
      now destruct found.
Qed.

(** A provider whose name is that of a member of [Object.prototype],
    and that no reload has put on record, makes [load(false)] fail at
    once: [fetchRequests[name]] reads the inherited member, so [load()] of
    the provider is not called and nothing is recorded under its name;
    [forkJoin], handed a member that is no observable, fails the
    subscription, and the error callback resets both flags.  The snapshot
    is as before and no [loaded] is sent. *)
Theorem inherited_name_fails_load :
  forall (s : state) (p : ConfigProvider),
    p ∈ providers s ->
    inherited (name p) = true ->
    fetchRequests s !! name p = None ->
    completed s = false ->
    snd (load false s) = Failing
    /\ loading (fst (load false s)) = false
    /\ completed (fst (load false s)) = false
    /\ cachedConfig (fst (load false s)) = cachedConfig s
    /\ subscribers (fst (load false s)) = subscribers s
    /\ fetchRequests (fst (load false s)) !! name p = None
    /\ loadEvents (fst (load false s))
       = loadEvents s ++ (if loading s then [] else [loading_context]).
Proof.
  intros s p Hp Hinherited Hnone Hcompleted.
  unfold load, loadInternal. rewrite Hcompleted. cbn [andb].
  set (s1 := if negb (loading s) then _ else s).
  assert (Hs1 : providers s1 = providers s /\ fetchRequests s1 = fetchRequests s
                /\ cachedConfig s1 = cachedConfig s /\ subscribers s1 = subscribers s
                /\ loadEvents s1 = loadEvents s ++ (if loading s then [] else [loading_context])).
  { unfold s1. destruct (loading s); cbn; repeat split. now rewrite app_nil_r. }
  destruct Hs1 as (Hp1 & Hr1 & Hc1 & Hsubs1 & He1).
  destruct (requestAll_keeps_inherited (providers s1) (name p) Hinherited 0 s1)
    as [Hkept Hfails]; [now rewrite Hr1|].
  pose proof (requestAll_same_service false (providers s1) 0 s1) as Hframe.
  destruct (requestAll false 0 (providers s1) s1) as [s2 members]. cbn [fst snd] in *.
  rewrite Hfails by (exists p; split; [now rewrite Hp1 | reflexivity]).
  destruct Hframe as (_ & _ & _ & Hc & _ & He & Hsubs & _).
  cbn [fst snd loading completed cachedConfig subscribers fetchRequests loadEvents
       on_error set_flags].
  repeat split; congruence.
Qed.

Lemma inherited_name_fails_load_witness :
  snd (load false (constructor [{| name := "a" |}; {| name := "valueOf" |}] ∅)) = Failing
  /\ loading (fst (load false (constructor [{| name := "a" |}; {| name := "valueOf" |}] ∅)))
     = false
  /\ completed (fst (load false (constructor [{| name := "a" |}; {| name := "valueOf" |}] ∅)))
     = false
  /\ cachedConfig (fst (load false (constructor [{| name := "a" |}; {| name := "valueOf" |}] ∅)))
     = cachedConfig (constructor [{| name := "a" |}; {| name := "valueOf" |}] ∅)
  /\ subscribers (fst (load false (constructor [{| name := "a" |}; {| name := "valueOf" |}] ∅)))
     = subscribers (constructor [{| name := "a" |}; {| name := "valueOf" |}] ∅)
  /\ fetchRequests (fst (load false (constructor [{| name := "a" |}; {| name := "valueOf" |}] ∅)))
       !! "valueOf" = None
  /\ loadEvents (fst (load false (constructor [{| name := "a" |}; {| name := "valueOf" |}] ∅)))
     = loadEvents (constructor [{| name := "a" |}; {| name := "valueOf" |}] ∅)
       ++ (if loading (constructor [{| name := "a" |}; {| name := "valueOf" |}] ∅)
           then [] else [loading_context]).
Proof.
  apply (inherited_name_fails_load
           (constructor [{| name := "a" |}; {| name := "valueOf" |}] ∅)
           {| name := "valueOf" |}); try reflexivity.
  apply list_elem_of_In. vm_compute. now left.
Defined.

(** * More on merging *)

Lemma assign_known (fields : object) (key : string) (v : value) :
  key ∈ keys fields -> keys (assign fields key v) = keys fields.
Proof.
  induction fields as [|[k w] fields IH]; intros Hin.
  - now apply elem_of_nil in Hin.
  - cbn [assign]. destruct (String.eqb_spec k key) as [->|Hne]; [reflexivity|].
    cbn [keys List.map fst] in *. apply elem_of_cons in Hin as [Heq|Hin]; [congruence|].
    f_equal. now apply IH.
Qed.

Lemma assign_new (fields : object) (key : string) (v : value) :
  key ∉ keys fields -> assign fields key v = fields ++ [(key, v)].
Proof.
  induction fields as [|[k w] fields IH]; intros Hnew; [reflexivity|].
  cbn [keys List.map fst] in Hnew. apply not_elem_of_cons in Hnew as [Hne Hnew].
  cbn [assign]. rewrite (proj2 (String.eqb_neq k key)) by congruence.
  cbn [app]. f_equal. now apply IH.
Qed.

Lemma keys_app (a b : object) : keys (a ++ b) = keys a ++ keys b.
Proof. unfold keys. apply List.map_app. Qed.

Lemma assign_keys (fields : object) (key : string) (v : value) :
  (NoDup (keys fields) -> NoDup (keys (assign fields key v)))
  /\ (forall other : string,
         other ∈ keys (assign fields key v) <-> other ∈ keys fields \/ other = key).
Proof.
  destruct (decide (key ∈ keys fields)) as [Hin|Hnew].
  - rewrite assign_known by exact Hin. split; [auto|].
    intros other. split; [now left | intros [H| ->]; assumption].
  - rewrite assign_new by exact Hnew. rewrite keys_app. cbn [keys List.map fst]. split.
    + intros Hnodup. apply NoDup_app. split; [exact Hnodup|]. split.
      * intros other Hother Hkey. apply list_elem_of_singleton in Hkey. congruence.
      * apply NoDup_singleton.
    + intros other. rewrite elem_of_app, list_elem_of_singleton. tauto.
Qed.

Lemma spread_keys (b : object) :
  forall a : object,
    (NoDup (keys a) -> NoDup (keys (spread a b)))
    /\ (forall key : string, key ∈ keys (spread a b) <-> key ∈ keys a \/ key ∈ keys b).
Proof.
  induction b as [|[k v] b IH]; intros a.
  - split; [auto|]. intros key. cbn. split; [now left | intros [H|H]; [exact H|]].
    now apply elem_of_nil in H.
  - change (spread a ((k, v) :: b)) with (spread (assign a k v) b).
    destruct (IH (assign a k v)) as [Hnodup Hkeys].
    destruct (assign_keys a k v) as [Hnodup1 Hkeys1]. split; [auto|].
    intros key. rewrite Hkeys, Hkeys1. cbn [keys List.map fst]. rewrite elem_of_cons.
    tauto.
Qed.

Lemma merge_from_keys (configs : list ConfigSection) :
  forall start : ConfigSection,
    (NoDup (keys start) -> NoDup (keys (fold_left spread configs start)))
    /\ (forall key : string,
           key ∈ keys (fold_left spread configs start)
           <-> key ∈ keys start \/ exists config, config ∈ configs /\ key ∈ keys config).
Proof.
  induction configs as [|config configs IH]; intros start.
  - split; [auto|]. intros key. cbn. split; [now left|].
    intros [H|(config & Hin & _)]; [exact H | now apply elem_of_nil in Hin].
  - cbn [fold_left]. destruct (IH (spread start config)) as [Hnodup Hkeys].
    destruct (spread_keys config start) as [Hnodup1 Hkeys1]. split; [auto|].
    intros key. rewrite Hkeys, Hkeys1. split.
    + intros [[H|H]|(c & Hin & Hkey)].
      * now left.
      * right. exists config. split; [apply elem_of_cons; now left | exact H].
      * right. exists c. split; [apply elem_of_cons; now right | exact Hkey].
    + intros [H|(c & Hin & Hkey)]; [now left; left|].
      apply elem_of_cons in Hin as [->|Hin]; [now left; right|].
      right. now exists c.
Qed.

Lemma merge_from_lookup (configs : list ConfigSection) (key : string) :
  forall start : ConfigSection,
    Forall (fun config => NoDup (keys config)) configs ->
    own (fold_left spread configs start) key
    = fold_left (fun found config =>
                   match own config key with
                   | Some v => Some v
                   | None => found
                   end)
                configs (own start key).
Proof.
  induction configs as [|config configs IH]; intros start Hall; [reflexivity|].
  apply Forall_cons in Hall as [Hconfig Hall]. cbn [fold_left].
  rewrite IH by exact Hall. now rewrite own_spread.
Qed.

(** The merge is an object with each key once; its keys are those of
    the sections; and a key has the value of the last section that has
    it, whole: a nested section is replaced, never merged into. *)
Theorem mergeConfigs_last_section_wins :
  forall configs : list ConfigSection,
    NoDup (keys (mergeConfigs configs))
    /\ (forall key : string,
           key ∈ keys (mergeConfigs configs)
           <-> exists config, config ∈ configs /\ key ∈ keys config)
    /\ (Forall (fun config => NoDup (keys config)) configs ->
        forall key : string, own (mergeConfigs configs) key = latest key configs).
Proof.
  intros configs. unfold mergeConfigs.
  destruct (merge_from_keys configs []) as [Hnodup Hkeys]. split; [|split].
  - apply Hnodup. apply NoDup_nil_2.
  - intros key. rewrite Hkeys. split; [|now right].
    intros [H|H]; [now apply elem_of_nil in H | exact H].
  - intros Hall key. now rewrite merge_from_lookup.
Qed.





(** * The service along a run *)

Lemma existsb_agree {A : Type} (f g : A -> bool) (l : list A) :
  (forall x : A, x ∈ l -> f x = g x) -> existsb f l = existsb g l.
Proof.
  induction l as [|x l IH]; intros Hsame; [reflexivity|]. cbn [existsb].
  rewrite (Hsame x) by (apply elem_of_cons; now left).
  rewrite IH; [reflexivity|]. intros y Hy. apply Hsame. apply elem_of_cons. now right.
Qed.

(** [forkJoin] looks at the fetches it joins and at no other. *)
Lemma forkJoin_ext (fs fs' : list fetch) (ids : list nat) :
  (forall id : nat, id ∈ ids -> outcome_at fs' id = outcome_at fs id) ->
  forkJoin fs' ids = forkJoin fs ids.
Proof.
  intros Hsame. unfold forkJoin. destruct ids as [|id0 ids]; [reflexivity|].
  rewrite (existsb_agree (fun id => is_rejected (outcome_at fs' id))
                         (fun id => is_rejected (outcome_at fs id)))
    by (intros id Hid; now rewrite Hsame).
  rewrite (Forall_mapM_ext (fun id => fulfilled (outcome_at fs' id))
                           (fun id => fulfilled (outcome_at fs id))); [reflexivity|].
  apply Forall_forall. intros id Hid. now rewrite Hsame.
Qed.

Lemma request_outcomes (reload : bool) (index : nat) (p : ConfigProvider) (s : state)
    (id : nat) :
  outcome_at (fetches (fst (request reload index p s))) id = outcome_at (fetches s) id.
Proof.
  unfold request.
  destruct (if reload then None else read (fetchRequests s) (name p)); [reflexivity|].
  cbn [fst fetches set_requests]. unfold outcome_at.
  destruct (decide (id < length (fetches s))) as [Hlt|Hge].
  - now rewrite lookup_app_l.
  - rewrite lookup_app_r by lia. rewrite (proj2 (lookup_ge_None (fetches s) id)) by lia.
    now destruct (id - length (fetches s)) as [|[|k]].
Qed.

(** Issuing fetches leaves the outcome of every fetch as it was: the
    new ones are pending, as a fetch not yet issued is. *)
Lemma requestAll_outcomes (reload : bool) (ps : list ConfigProvider) :
  forall (index : nat) (s : state) (id : nat),
    outcome_at (fetches (fst (requestAll reload index ps s))) id = outcome_at (fetches s) id.
Proof.
  induction ps as [|p ps IH]; intros index s id; [reflexivity|]. cbn [requestAll].
  pose proof (request_outcomes reload index p s id) as Hhead.
  destruct (request reload index p s) as [s1 id1]. cbn [fst] in *.
  specialize (IH (S index) s1 id).
  destruct (requestAll reload (S index) ps s1) as [s2 ids]. cbn [fst] in *. congruence.
Qed.

Lemma map_service (className : string) (optionsObj l : loc) (s s' : state) :
  map className optionsObj s = Some (l, s') ->
  loading s' = loading s /\ completed s' = completed s
  /\ cachedConfig s' = cachedConfig s /\ fetches s' = fetches s
  /\ subscribers s' = subscribers s.
Proof.
  unfold map. intros Hmap.
  destruct (getNormalizedKey className); [|discriminate Hmap].
  destruct (heap s !! optionsObj); [|discriminate Hmap].
  destruct (bool_decide _); [injection Hmap as _ <-; now repeat split|].
  destruct (getValue _ s);
    [| | | | |destruct (mapOptionValues_throws _ _); [discriminate Hmap|]];
    injection Hmap as _ <-; now repeat split.
Qed.

(** The flags after one delivery. *)
Lemma deliver_flags (own : bool) (ids : list nat) (s : state) :
  ((loading s = true -> completed s = false) ->
   loading (deliver own ids s) = true -> completed (deliver own ids s) = false)
  /\ ((completed s = true -> loaded_context ∈ loadEvents s) ->
      completed (deliver own ids s) = true -> loaded_context ∈ loadEvents (deliver own ids s))
  /\ (loading (deliver own ids s) = true ->
      loading s = true
      /\ (own = true ->
          forkJoin (fetches s) ids = Waiting \/ forkJoin (fetches s) ids = Complete)).
Proof.
  unfold deliver.
  destruct (forkJoin (fetches s) ids) as [configs| | |], own; cbn; repeat split;
    auto; try discriminate;
    try (intros _ _; apply elem_of_app; right; apply list_elem_of_singleton; reflexivity).
Qed.

Lemma serve_flags (served : list (bool * list nat)) :
  forall s : state,
    let s' := fold_left (fun st sub => deliver (fst sub) (snd sub) st) served s in
    ((loading s = true -> completed s = false) ->
     loading s' = true -> completed s' = false)
    /\ ((completed s = true -> loaded_context ∈ loadEvents s) ->
        completed s' = true -> loaded_context ∈ loadEvents s')
    /\ (loading s' = true ->
        loading s = true
        /\ Forall (fun sub => fst sub = true ->
                              forkJoin (fetches s) (snd sub) = Waiting
                              \/ forkJoin (fetches s) (snd sub) = Complete) served).
Proof.
  induction served as [|[own ids] served IH]; intros s.
  - cbn. repeat split; auto.
  - cbn [fold_left fst snd].
    destruct (IH (deliver own ids s)) as (H1 & H2 & H3).
    destruct (deliver_flags own ids s) as (D1 & D2 & D3).
    split; [auto|]. split; [auto|].
    intros Hloading. destruct (H3 Hloading) as [Hmid Hrest].
    destruct (D3 Hmid) as [Hstart Hhead]. split; [exact Hstart|].
    constructor; [exact Hhead|].
    eapply Forall_impl; [exact Hrest|]. intros sub Hsub. now rewrite deliver_fetches in Hsub.
Qed.

Lemma forkJoin_Complete (fs : list fetch) (ids : list nat) :
  forkJoin fs ids = Complete -> ids = [].
Proof.
  unfold forkJoin. destruct ids; [reflexivity|].
  destruct (existsb _ _); [discriminate|]. destruct (mapM _ _); discriminate.
Qed.

(** The subscription [loadInternal] makes: whatever the join has, the
    service is steady afterwards. *)
Lemma steady_subscribe_own (ids : list nat) (s : state) :
  (loading s = true -> completed s = false) ->
  (completed s = true -> loaded_context ∈ loadEvents s) ->
  Forall (fun sub => forkJoin (fetches s) (snd sub) = Waiting) (subscribers s) ->
  (ids = [] -> providers s = []) ->
  steady (subscribe true ids s).
Proof.
  intros Hflags Hsent Hwait Hids.
  destruct (deliver_flags true ids s) as (D1 & D2 & D3).
  destruct (deliver_frame true ids s) as (Hp & _ & Hs & _).
  pose proof (deliver_fetches true ids s) as Hf.
  unfold subscribe. destruct (forkJoin (fetches s) ids) as [configs| | |] eqn:Hjoin.
  4:{ repeat split; cbn [loading completed loadEvents fetches subscribers set_subscribers
                         providers sortedConfigProviders]; auto.
      - apply Forall_app. split; [exact Hwait|]. now repeat constructor.
      - intros _ _. exists ids. apply elem_of_app. right.
        apply list_elem_of_singleton. reflexivity. }
  all: repeat split; [now apply D1 | now apply D2 | now rewrite Hf, Hs |].
  all: intros Hloading Hproviders; destruct (D3 Hloading) as [_ Hhead].
  all: destruct (Hhead eq_refl) as [H|H]; try discriminate H.
  exfalso. apply Hproviders. unfold providers in *. rewrite Hp.
  now apply Hids, (forkJoin_Complete (fetches s)).
Qed.

(** A caller subscribes to what [load] returned. *)
Lemma steady_subscribe_other (ids : list nat) (s : state) :
  steady s -> steady (subscribe false ids s).
Proof.
  intros (Hflags & Hsent & Hwait & Hcycle).
  destruct (deliver_flags false ids s) as (D1 & D2 & D3).
  destruct (deliver_frame false ids s) as (Hp & _ & Hs & _).
  pose proof (deliver_fetches false ids s) as Hf.
  unfold subscribe. destruct (forkJoin (fetches s) ids) as [configs| | |] eqn:Hjoin.
  4:{ repeat split; cbn [loading completed loadEvents fetches subscribers set_subscribers
                         providers sortedConfigProviders]; auto.
      - apply Forall_app. split; [exact Hwait|]. now repeat constructor.
      - intros Hloading Hproviders. destruct (Hcycle Hloading Hproviders) as [ids' Hin].
        exists ids'. apply elem_of_app. now left. }
  all: repeat split; [now apply D1 | now apply D2 | now rewrite Hf, Hs |].
  all: intros Hloading Hproviders; destruct (D3 Hloading) as [Hstart _]; rewrite Hs.
  all: apply Hcycle; [exact Hstart | unfold providers in *; congruence].
Qed.

Lemma steady_step (s : state) (e : event) : steady s -> steady (step s e).
Proof.
  intros Hsteady. pose proof Hsteady as (Hflags & Hsent & Hwait & Hcycle).
  destruct e as [reLoad|[config|ids|]|id outcome_now|className optionsObj]; cbn [step].
  - unfold load, loadInternal. destruct (completed s && negb reLoad); [exact Hsteady|].
    set (s1 := if negb (loading s)
               then loadSubject_next {| status := Some StatusLoading |} (set_flags true false s)
               else s).
    assert (Hs1 : (loading s1 = true -> completed s1 = false)
                  /\ (completed s1 = true -> loaded_context ∈ loadEvents s1)
                  /\ fetches s1 = fetches s /\ subscribers s1 = subscribers s).
    { unfold s1. destruct (negb (loading s)); cbn; repeat split; auto; discriminate. }
    destruct Hs1 as (Hflags1 & Hsent1 & Hf1 & Hsubs1).
    pose proof (requestAll_same_service reLoad (providers s1) 0 s1) as Hframe.
    pose proof (requestAll_outcomes reLoad (providers s1) 0 s1) as Houtcomes.
    pose proof (requestAll_length reLoad (providers s1) 0 s1) as Hlength.
    destruct (requestAll reLoad 0 (providers s1) s1) as [s2 members]. cbn [fst snd] in *.
    destruct Hframe as (Hp & Hl & Hd & _ & _ & He & Hs & _).
    assert (Hwait2 : Forall (fun sub => forkJoin (fetches s2) (snd sub) = Waiting)
                            (subscribers s2)).
    { rewrite Hs, Hsubs1. eapply Forall_impl; [exact Hwait|].
      intros sub Hsub. rewrite <- Hsub. apply forkJoin_ext.
      intros id _. now rewrite Houtcomes, Hf1. }
    destruct (streams members) as [ids|] eqn:Hstreams; cbn [fst].
    + apply steady_subscribe_own.
      * rewrite Hl, Hd. exact Hflags1.
      * rewrite Hd, He. exact Hsent1.
      * exact Hwait2.
      * intros ->. apply length_mapM in Hstreams. unfold providers in *. rewrite Hp.
        destruct (sortedConfigProviders s1); [reflexivity|].
        rewrite Hstreams in Hlength. discriminate Hlength.
    + repeat split; try discriminate. exact Hwait2.
  - exact Hsteady.
  - now apply steady_subscribe_other.
  - exact Hsteady.
  - unfold settle.
    destruct (fetches s !! id) as [[index [| |]]|] eqn:Hfetch; try exact Hsteady.
    set (fs := <[id := _]> (fetches s)).
    set (served := List.filter (waits_on id) (subscribers s)).
    set (kept := List.filter _ (subscribers s)).
    set (s0 := set_subscribers kept (set_requests (fetchRequests s) fs s)).
    destruct (serve_flags served s0) as (F1 & F2 & F3).
    destruct (serve_frame served s0) as (Hp & _ & Hf & Hs & _).
    cbn zeta in *. repeat split.
    + now apply F1.
    + now apply F2.
    + rewrite Hf, Hs. apply Forall_forall. intros sub Hsub.
      apply list_elem_of_In, filter_In in Hsub as [Hsub Hkept].
      apply list_elem_of_In in Hsub. change (fetches s0) with fs.
      destruct (still_waiting fs sub) eqn:Hstill.
      * unfold still_waiting in Hstill. now destruct (forkJoin fs (snd sub)).
      * rewrite orb_false_r in Hkept. apply negb_true_iff in Hkept.
        rewrite Forall_forall in Hwait. rewrite <- (Hwait sub Hsub).
        apply forkJoin_ext. intros other Hother. apply outcome_at_insert_ne.
        intros <-. apply waits_on_elem in Hother. congruence.
    + intros Hloading Hproviders. destruct (F3 Hloading) as [Hstart Hserved].
      destruct (Hcycle Hstart) as [ids Hin].
      { unfold providers in *. now rewrite Hp in Hproviders. }
      exists ids. rewrite Hs. change (subscribers s0) with kept.
      apply list_elem_of_In, filter_In. split; [now apply list_elem_of_In|].
      destruct (waits_on id (true, ids)) eqn:Hwaits; [|reflexivity]. cbn [negb orb].
      rewrite Forall_forall in Hserved.
      destruct (Hserved (true, ids)) as [H|H]; [| reflexivity | |].
      * apply list_elem_of_In, filter_In. split; [now apply list_elem_of_In | exact Hwaits].
      * unfold still_waiting. change (fetches s0) with fs in H. cbn [snd] in *.
        now rewrite H.
      * apply forkJoin_Complete in H. cbn [snd] in H. subst ids. discriminate Hwaits.
  - destruct (map className optionsObj s) as [[l s']|] eqn:Hmap.
    2:{ destruct (thrown_service className optionsObj s)
          as (Hp & _ & Hl & Hc & _ & He & Hf & Hs & _).
        unfold steady, providers. now rewrite Hp, Hl, Hc, He, Hf, Hs. }
    pose proof (step_providers s (CallMap className optionsObj)) as Hp.
    cbn [step] in Hp. rewrite Hmap in Hp.
    pose proof (map_loadEvents _ _ _ _ _ Hmap) as He.
    destruct (map_service _ _ _ _ _ Hmap) as (Hl & Hd & _ & Hf & Hs).
    unfold steady, providers. rewrite Hl, Hd, He, Hf, Hs, Hp. exact Hsteady.
Qed.

Lemma steady_run (events : list event) :
  forall s : state, steady s -> steady (run events s).
Proof.
  induction events as [|e events IH]; intros s Hs; [exact Hs|].
  cbn [run fold_left]. now apply IH, steady_step.
Qed.

Lemma steady_constructor (configProviders : list ConfigProvider) (h : gmap loc OptionsLike) :
  steady (constructor configProviders h).
Proof. repeat split; cbn; try discriminate. apply Forall_nil_2. Qed.

Lemma run_providers (events : list event) :
  forall s : state, providers (run events s) = providers s.
Proof.
  induction events as [|e events IH]; intros s; [reflexivity|].
  cbn [run fold_left]. rewrite IH. apply step_providers.
Qed.

(** Whatever happens to a service, the registered providers stay as
    the constructor reversed them, [loading] and [completed] are never
    both set, and [completed] is set only after the status [loaded] has
    been sent. *)
Theorem never_loading_and_completed :
  forall (configProviders : list ConfigProvider) (h : gmap loc OptionsLike)
         (events : list event),
    providers (run events (constructor configProviders h)) = reverse configProviders
    /\ (loading (run events (constructor configProviders h)) = true ->
        completed (run events (constructor configProviders h)) = false)
    /\ (completed (run events (constructor configProviders h)) = true ->
        loaded_context ∈ loadEvents (run events (constructor configProviders h))).
Proof.
  intros configProviders h events.
  destruct (steady_run events _ (steady_constructor configProviders h)) as (H1 & H2 & _).
  split; [apply run_providers|]. now split.
Qed.

Lemma forkJoin_Waiting_inv (fs : list fetch) (ids : list nat) :
  forkJoin fs ids = Waiting ->
  exists id : nat, id ∈ ids /\ outcome_at fs id = Pending.
Proof.
  unfold forkJoin. destruct ids as [|id0 ids]; [discriminate|].
  destruct (existsb _ _) eqn:Hrejected; [discriminate|].
  destruct (mapM _ _) eqn:Hall; [discriminate|]. intros _.
  apply mapM_None, Exists_exists in Hall as (id & Hid & Hnone).
  exists id. split; [exact Hid|].
  assert (Hnot : is_rejected (outcome_at fs id) = false).
  { destruct (is_rejected (outcome_at fs id)) eqn:H; [|reflexivity].
    rewrite <- Hrejected. symmetry. apply existsb_exists. exists id.
    split; [now apply list_elem_of_In | exact H]. }
  destruct (outcome_at fs id); [reflexivity | discriminate Hnone | discriminate Hnot].
Qed.

(** While [loading] is set on a service with providers, a load cycle
    of the service is still subscribed and one of the fetches it joins is
    pending: the flag cannot stay set once every fetch has settled. *)
Theorem loading_means_fetch_pending :
  forall (configProviders : list ConfigProvider) (h : gmap loc OptionsLike)
         (events : list event),
    configProviders <> [] ->
    loading (run events (constructor configProviders h)) = true ->
    exists (ids : list nat) (id : nat),
      (true, ids) ∈ subscribers (run events (constructor configProviders h))
      /\ id ∈ ids
      /\ outcome_at (fetches (run events (constructor configProviders h))) id = Pending.
Proof.
  intros configProviders h events Hsome Hloading.
  destruct (steady_run events _ (steady_constructor configProviders h))
    as (_ & _ & Hwait & Hcycle).
  destruct (Hcycle Hloading) as [ids Hin].
  { rewrite run_providers. cbn. intros Hnil. apply Hsome.
    apply (f_equal (@length _)) in Hnil. rewrite length_reverse in Hnil.
    now destruct configProviders. }
  rewrite Forall_forall in Hwait.
  destruct (forkJoin_Waiting_inv _ _ (Hwait _ Hin)) as (id & Hid & Hpending).
  now exists ids, id.
Qed.

Lemma loading_means_fetch_pending_witness :
  exists (ids : list nat) (id : nat),
    (true, ids)
      ∈ subscribers (run [CallLoad false; CallLoad true]
                         (constructor [{| name := "p" |}] ∅))
    /\ id ∈ ids
    /\ outcome_at (fetches (run [CallLoad false; CallLoad true]
                                (constructor [{| name := "p" |}] ∅))) id = Pending.
Proof.
  apply (loading_means_fetch_pending [{| name := "p" |}] ∅
           [CallLoad false; CallLoad true]).
  - discriminate.
  - reflexivity.
Defined.









(** * The status stream *)

Lemma deliver_appends (own : bool) (ids : list nat) (s : state) :
  exists more, loadEvents (deliver own ids s) = loadEvents s ++ more.
Proof.
  unfold deliver. destruct (forkJoin (fetches s) ids), own; cbn;
    first [now exists [loaded_context] | exists []; now rewrite app_nil_r].
Qed.

Lemma serve_appends (served : list (bool * list nat)) :
  forall s : state,
    exists more,
      loadEvents (fold_left (fun st sub => deliver (fst sub) (snd sub) st) served s)
      = loadEvents s ++ more.
Proof.
  induction served as [|[own ids] served IH]; intros s.
  - exists []. cbn. now rewrite app_nil_r.
  - cbn [fold_left fst snd]. destruct (IH (deliver own ids s)) as [more Hmore].
    destruct (deliver_appends own ids s) as [first Hfirst].
    exists (first ++ more). now rewrite Hmore, Hfirst, app_assoc.
Qed.

Lemma subscribe_appends (own : bool) (ids : list nat) (s : state) :
  exists more, loadEvents (subscribe own ids s) = loadEvents s ++ more.
Proof.
  pose proof (deliver_appends own ids s) as Hdeliver. unfold subscribe.
  destruct (forkJoin (fetches s) ids); try exact Hdeliver.
  exists []. cbn. now rewrite app_nil_r.
Qed.

Lemma step_appends (s : state) (e : event) :
  exists more, loadEvents (step s e) = loadEvents s ++ more.
Proof.
  destruct e as [reLoad|[config|ids|]|id outcome_now|className optionsObj]; cbn [step].
  - unfold load, loadInternal.
    destruct (completed s && negb reLoad); [exists []; cbn; now rewrite app_nil_r|].
    set (s1 := if negb (loading s)
               then loadSubject_next {| status := Some StatusLoading |} (set_flags true false s)
               else s).
    assert (Hs1 : exists more, loadEvents s1 = loadEvents s ++ more).
    { unfold s1. destruct (negb (loading s)); [now eexists|].
      exists []. now rewrite app_nil_r. }
    pose proof (requestAll_same_service reLoad (providers s1) 0 s1) as Hframe.
    destruct (requestAll reLoad 0 (providers s1) s1) as [s2 members]. cbn [fst] in *.
    destruct Hframe as (_ & _ & _ & _ & _ & He & _).
    destruct Hs1 as [first Hfirst].
    destruct (streams members) as [ids|]; cbn [fst].
    + destruct (subscribe_appends true ids s2) as [more Hmore].
      exists (first ++ more). now rewrite Hmore, He, Hfirst, app_assoc.
    + exists first. cbn [loadEvents on_error set_flags]. now rewrite He, Hfirst.
  - exists []. now rewrite app_nil_r.
  - apply subscribe_appends.
  - exists []. now rewrite app_nil_r.
  - unfold settle.
    destruct (fetches s !! id) as [[index [| |]]|];
      try (exists []; now rewrite app_nil_r).
    match goal with
    | |- exists more, loadEvents (fold_left _ ?served ?s0) = _ =>
        destruct (serve_appends served s0) as [more Hmore]; exists more; exact Hmore
    end.
  - destruct (map className optionsObj s) as [[l s']|] eqn:Hmap.
    + exists []. rewrite (map_loadEvents _ _ _ _ _ Hmap). now rewrite app_nil_r.
    + exists []. destruct (thrown_service className optionsObj s) as (_ & _ & _ & _ & _ & He & _).
      now rewrite He, app_nil_r.
Qed.

Lemma started_step (s : state) (e : event) : started s -> started (step s e).
Proof.
  intros [rest Hrest]. destruct (step_appends s e) as [more Hmore].
  exists (rest ++ more). now rewrite Hmore, Hrest.
Qed.

Lemma forkJoin_nothing_fetched (ids : list nat) :
  forkJoin [] ids = Waiting \/ forkJoin [] ids = Complete.
Proof.
  destruct ids as [|id ids]; [now right|]. left.
  assert (Hpending : forall i : nat, outcome_at [] i = Pending).
  { intros i. unfold outcome_at. now rewrite lookup_nil. }
  unfold forkJoin.
  assert (Hnone : existsb (fun i => is_rejected (outcome_at [] i)) (id :: ids) = false).
  { induction (id :: ids) as [|i l IH]; [reflexivity|].
    cbn [existsb]. now rewrite Hpending, IH. }
  rewrite Hnone. cbn [mapM]. now rewrite Hpending.
Qed.

(** Until [load] is called nothing happens to the service. *)
Lemma untouched_step (s : state) (e : event) :
  untouched s -> is_load e = false -> untouched (step s e).
Proof.
  intros (He & Hl & Hc & Hf & Hs & Hsubs) Hother.
  destruct e as [reLoad|[config|ids|]|id outcome_now|className optionsObj];
    [discriminate Hother| | | | |]; cbn [step].
  - now repeat split.
  - unfold subscribe, deliver. rewrite Hf.
    destruct (forkJoin_nothing_fetched ids) as [-> | ->].
    + repeat split; try assumption. cbn [subscribers set_subscribers].
      apply Forall_app. split; [exact Hsubs|]. now repeat constructor.
    + now repeat split.
  - now repeat split.
  - unfold settle. rewrite Hf, lookup_nil. now repeat split.
  - destruct (map className optionsObj s) as [[l s']|] eqn:Hmap.
    2:{ destruct (thrown_service className optionsObj s)
          as (_ & _ & Hl' & Hc' & Hs' & He' & Hf' & Hsubs' & _).
        repeat split; congruence. }
    destruct (map_service _ _ _ _ _ Hmap) as (Hl' & Hc' & Hs' & Hf' & Hsubs').
    pose proof (map_loadEvents _ _ _ _ _ Hmap) as He'.
    repeat split; congruence.
Qed.

Lemma untouched_load (s : state) (reLoad : bool) :
  untouched s -> started (fst (load reLoad s)).
Proof.
  intros (He & Hl & Hc & _). unfold load, loadInternal. rewrite Hc, Hl. cbn [andb negb].
  set (s1 := loadSubject_next {| status := Some StatusLoading |} (set_flags true false s)).
  pose proof (requestAll_same_service reLoad (providers s1) 0 s1) as Hframe.
  destruct (requestAll reLoad 0 (providers s1) s1) as [s2 members]. cbn [fst] in *.
  destruct Hframe as (_ & _ & _ & _ & _ & He2 & _).
  destruct (streams members) as [ids|]; cbn [fst].
  - destruct (subscribe_appends true ids s2) as [more Hmore].
    exists more. rewrite Hmore, He2. unfold s1. cbn [loadEvents loadSubject_next set_flags].
    now rewrite He.
  - exists []. cbn [loadEvents on_error set_flags]. rewrite He2. unfold s1.
    cbn [loadEvents loadSubject_next set_flags]. now rewrite He.
Qed.

Lemma run_status (events : list event) :
  forall s : state,
    (started s -> started (run events s))
    /\ (untouched s ->
        if existsb is_load events then started (run events s)
        else untouched (run events s)).
Proof.
  induction events as [|e events IH]; intros s; [now split|].
  cbn [run fold_left existsb]. destruct (IH (step s e)) as [Hkeep Hfirst]. split.
  - intros Hs. now apply Hkeep, started_step.
  - intros Hs. destruct (is_load e) eqn:He; cbn [orb].
    + destruct e; try discriminate He. apply Hkeep. cbn [step]. now apply untouched_load.
    + now apply Hfirst, untouched_step.
Qed.

(** The status stream of a service says nothing until [load] is called
    for the first time, and from then on it opens with [loading]: no
    [loaded] is ever sent first.  Until that call the service has fetched
    nothing, its flags are down and its snapshot is empty. *)
Theorem status_stream_opens_with_loading :
  forall (configProviders : list ConfigProvider) (h : gmap loc OptionsLike)
         (events : list event),
    (existsb is_load events = true
     /\ started (run events (constructor configProviders h)))
    \/ (existsb is_load events = false
        /\ untouched (run events (constructor configProviders h))).
Proof.
  intros configProviders h events.
  destruct (run_status events (constructor configProviders h)) as [_ Hfirst].
  assert (Hnew : untouched (constructor configProviders h)).
  { repeat split. constructor. }
  specialize (Hfirst Hnew). destruct (existsb is_load events); [left | right]; now split.
Qed.

(** * Binding without a section *)

(** Where the snapshot has no object under the normalized name (nothing
    at all, [null] or a scalar), [map] hands the instance back as it is:
    no field is rewritten, and the name is not on record afterwards
    unless the record answered the call. *)
Theorem map_without_section_returns_defaults :
  forall (s : state) (className normalizedKey : string) (optionsObj : loc),
    getNormalizedKey className = Some normalizedKey ->
    is_Some (heap s !! optionsObj) ->
    typeof (getValue normalizedKey s) <> TObject \/ getValue normalizedKey s = VNull ->
    exists s' : state,
      map className optionsObj s = Some (optionsObj, s')
      /\ heap s' = heap s
      /\ (s' = s \/ optionsRecord s' !! normalizedKey = None).
Proof.
  intros s className normalizedKey optionsObj Hkey [options Hobj] Hsection.
  unfold map. rewrite Hkey, Hobj.
  destruct (bool_decide _); [eexists; repeat split; now left|].
  assert (Hrecord :
            match optionsRecord s !! normalizedKey with
            | Some _ => delete normalizedKey (optionsRecord s)
            | None => optionsRecord s
            end !! normalizedKey = None).
  { destruct (optionsRecord s !! normalizedKey) eqn:Hold; [apply lookup_delete_eq | exact Hold]. }
  destruct (getValue normalizedKey s) as [| | | | |section];
    try (eexists; repeat split; right; exact Hrecord).
  destruct Hsection as [Hsection|Hsection]; [now contradiction Hsection | discriminate Hsection].
Qed.

Lemma map_without_section_returns_defaults_witness :
  exists s' : state,
    map "BarOptions" 0 bound_state = Some (0, s')
    /\ heap s' = heap bound_state
    /\ (s' = bound_state \/ optionsRecord s' !! "bar" = None).
Proof.
  apply (map_without_section_returns_defaults bound_state "BarOptions" "bar" 0).
  - reflexivity.
  - eexists. reflexivity.
  - right. reflexivity.
Defined.
